(** * PyLX-16A: pose model, pose player and gait composer

    A shallow embedding of [moving_left_and_right_legs.py] and of the
    entry script [dance.py].

    Angles are Python floats in the source.  They are embedded as exact
    rationals ([Q]): the decimal literals of the source are exact in [Q],
    and rounding of binary floating point is not modelled.  Python's
    [dict] is an association list in insertion order with unique keys. *)

From Stdlib Require Import ZArith QArith Qround List Bool Lia Lqa Permutation.
From Stdlib Require String.
Import ListNotations String.StringSyntax.
Delimit Scope string_scope with string.

Open Scope Q_scope.

(* ====================================================================== *)
(** * Python values used by the scripts *)
(* ====================================================================== *)

(** Dictionary keys: servo ids are [int]; keyword-argument names are [str]. *)
Inductive Key : Type :=
| KInt (n : Z)
| KStr (s : String.string).

Definition key_eqb (a b : Key) : bool :=
  match a, b with
  | KInt x, KInt y => Z.eqb x y
  | KStr s, KStr t => String.eqb s t
  | _, _ => false
  end.

(** Faults of a servo-bus command, after section 6 of the specification
    ([ServoError{Timeout, Disconnected, Rejected}]); the bus library itself
    is an external dependency of the scripts. *)
Inductive BusFault : Type :=
| FaultTimeout
| FaultDisconnected
| FaultRejected.

(** Exceptions that the scripts meet.  [KeyboardInterrupt] is the only one
    that is not a subclass of [Exception]. *)
Inductive PyExn : Type :=
| KeyError (k : Key)
| ValueError
| OverflowError
| BusError (f : BusFault)
| KeyboardInterrupt.

Definition is_Exception (e : PyExn) : bool :=
  match e with
  | KeyboardInterrupt => false
  | _ => true
  end.

(** How a call ends.  [OutOfFuel] is not a Python outcome: it marks a run
    whose bounded unrolling of a [while] loop stopped before the loop did. *)
Inductive PyResult (A : Type) : Type :=
| Returned (a : A)
| Raised (e : PyExn)
| OutOfFuel.
Arguments Returned {A} a.
Arguments Raised {A} e.
Arguments OutOfFuel {A}.

(* ====================================================================== *)
(** * Dictionaries *)
(* ====================================================================== *)

Definition dict : Type := list (Key * Q).

(** [k in d] *)
Fixpoint dict_contains (d : dict) (k : Key) : bool :=
  match d with
  | [] => false
  | (k', _) :: rest => if key_eqb k k' then true else dict_contains rest k
  end.

Fixpoint dict_get (d : dict) (k : Key) : option Q :=
  match d with
  | [] => None
  | (k', v) :: rest => if key_eqb k k' then Some v else dict_get rest k
  end.

(** [d[k]]: raises [KeyError] on a missing key. *)
Definition getitem (d : dict) (k : Key) : PyResult Q :=
  match dict_get d k with
  | Some v => Returned v
  | None => Raised (KeyError k)
  end.

(** [d[k] = v]: an existing key keeps its place, a new key goes last. *)
Fixpoint dict_set (d : dict) (k : Key) (v : Q) : dict :=
  match d with
  | [] => [(k, v)]
  | (k', v') :: rest =>
      if key_eqb k k' then (k', v) :: rest else (k', v') :: dict_set rest k v
  end.

Definition dict_keys (d : dict) : list Key := map fst d.

(** A Python dict never holds a key twice. *)
Fixpoint unique_keys (d : dict) : bool :=
  match d with
  | [] => true
  | (k, _) :: rest => negb (dict_contains rest k) && unique_keys rest
  end.

(** Keyword arguments [**deltas]: the names are always strings. *)
Definition kwargs : Type := list (String.string * Q).

Definition kwargs_items (kw : kwargs) : dict :=
  map (fun p => (KStr (fst p), snd p)) kw.

(* ====================================================================== *)
(** * Angle clamping *)
(* ====================================================================== *)

Definition Qltb (x y : Q) : bool := negb (Qle_bool y x).

(** Python's two-argument [max(a, b)] keeps [a] unless [b > a];
    [min(a, b)] keeps [a] unless [b < a]. *)
Definition py_max (a b : Q) : Q := if Qltb a b then b else a.
Definition py_min (a b : Q) : Q := if Qltb b a then b else a.

(** The expression of [set_pose], line 88:
    [max(0.0, min(240.0, angle))]. *)
Definition clampAngle (angle : Q) : Q := py_max 0.0 (py_min 240.0 angle).

(** The same function in the words of the specification:
    [min(240, max(0, a))]. *)
Definition clampAngle_spec (a : Q) : Q := py_min 240 (py_max 0 a).

(* ====================================================================== *)
(** * Configuration *)
(* ====================================================================== *)

Definition LEFT_ANKLE : Key := KInt 40.
Definition LEFT_KNEE : Key := KInt 10.
Definition LEFT_HIP : Key := KInt 20.
Definition RIGHT_ANKLE : Key := KInt 30.
Definition RIGHT_KNEE : Key := KInt 60.
Definition RIGHT_HIP : Key := KInt 50.

Definition NEUTRAL : dict :=
  [ (LEFT_HIP, 215.3);
    (LEFT_KNEE, 123.6);
    (LEFT_ANKLE, 123.1);
    (RIGHT_HIP, 234.0);
    (RIGHT_KNEE, 107.3);
    (RIGHT_ANKLE, 177.4) ].

(* ====================================================================== *)
(** * Pose composition *)
(* ====================================================================== *)

(** The body shared by the two [for sid, delta in ....items()] loops of
    [pose_from_neutral].  [neutral] is the global [NEUTRAL] read by the
    loop, [pose] the dictionary being updated. *)
Fixpoint apply_deltas (neutral : dict) (items : dict) (pose : dict)
  : PyResult dict :=
  match items with
  | [] => Returned pose
  | (sid, delta) :: rest =>
      if dict_contains pose sid then
        match getitem neutral sid with
        | Returned base => apply_deltas neutral rest (dict_set pose sid (base + delta))
        | Raised e => Raised e
        | OutOfFuel => OutOfFuel
        end
      else apply_deltas neutral rest pose
  end.

(** [pose_from_neutral(deltas_dict=None, **deltas)], with the global
    [NEUTRAL] it reads as its first argument.  This is the function on
    values; object identity is treated in [Module Objects] below. *)
Definition pose_from_neutral (neutral : dict)
    (deltas_dict : option dict) (deltas : kwargs) : PyResult dict :=
  let pose := neutral in
  match deltas_dict with
  | Some d => apply_deltas neutral d pose
  | None => apply_deltas neutral (kwargs_items deltas) pose
  end.

(** The pose a call returns; the empty pose stands for a raised exception,
    which [pose_from_neutral_returns] below rules out. *)
Definition pose_of (r : PyResult dict) : dict :=
  match r with
  | Returned p => p
  | _ => []
  end.

(* ====================================================================== *)
(** * Choreography data *)
(* ====================================================================== *)

Definition LEFT_LEG_STEP_SEQUENCE : list dict :=
  [ pose_of (pose_from_neutral NEUTRAL (Some
      [ (RIGHT_HIP, 0); (RIGHT_KNEE, 0); (RIGHT_ANKLE, 0);
        (LEFT_HIP, 0); (LEFT_KNEE, 50); (LEFT_ANKLE, -40) ]) []);
    pose_of (pose_from_neutral NEUTRAL (Some
      [ (RIGHT_HIP, 0); (RIGHT_KNEE, 0); (RIGHT_ANKLE, 0);
        (LEFT_HIP, 0); (LEFT_KNEE, 30); (LEFT_ANKLE, -20) ]) []);
    pose_of (pose_from_neutral NEUTRAL (Some
      [ (RIGHT_HIP, 0); (RIGHT_KNEE, 0); (RIGHT_ANKLE, 0);
        (LEFT_HIP, 0); (LEFT_KNEE, 10); (LEFT_ANKLE, 0) ]) []);
    NEUTRAL ].

Definition RIGHT_LEG_STEP_SEQUENCE : list dict :=
  [ pose_of (pose_from_neutral NEUTRAL (Some
      [ (RIGHT_HIP, 0); (RIGHT_KNEE, 50); (RIGHT_ANKLE, -40);
        (LEFT_HIP, 0); (LEFT_KNEE, 0); (LEFT_ANKLE, 0) ]) []);
    pose_of (pose_from_neutral NEUTRAL (Some
      [ (RIGHT_HIP, 0); (RIGHT_KNEE, 30); (RIGHT_ANKLE, -20);
        (LEFT_HIP, 0); (LEFT_KNEE, 0); (LEFT_ANKLE, 0) ]) []);
    pose_of (pose_from_neutral NEUTRAL (Some
      [ (RIGHT_HIP, 0); (RIGHT_KNEE, 10); (RIGHT_ANKLE, 0);
        (LEFT_HIP, 0); (LEFT_KNEE, 0); (LEFT_ANKLE, 0) ]) []);
    NEUTRAL ].

(** The four phrase sequences are locals of [dance], rebuilt by each call
    from [NEUTRAL]; they are the same values every time. *)
Definition HIP_SWAY_SEQUENCE : list dict :=
  [ pose_of (pose_from_neutral NEUTRAL (Some
      [ (LEFT_HIP, -10); (RIGHT_HIP, -10); (LEFT_KNEE, 10);
        (RIGHT_KNEE, 10); (LEFT_ANKLE, 0); (RIGHT_ANKLE, 0) ]) []);
    NEUTRAL;
    pose_of (pose_from_neutral NEUTRAL (Some
      [ (LEFT_HIP, 10); (RIGHT_HIP, 5); (LEFT_KNEE, 10);
        (RIGHT_KNEE, 10); (LEFT_ANKLE, 0); (RIGHT_ANKLE, 0) ]) []);
    NEUTRAL ].

Definition HIP_CIRCLE_SEQUENCE : list dict :=
  [ pose_of (pose_from_neutral NEUTRAL (Some
      [ (LEFT_HIP, 5); (RIGHT_HIP, 5); (LEFT_KNEE, 15);
        (RIGHT_KNEE, 15); (LEFT_ANKLE, -5); (RIGHT_ANKLE, -5) ]) []);
    pose_of (pose_from_neutral NEUTRAL (Some
      [ (LEFT_HIP, 10); (RIGHT_HIP, -5); (LEFT_KNEE, 10);
        (RIGHT_KNEE, 10); (LEFT_ANKLE, 0); (RIGHT_ANKLE, 0) ]) []);
    pose_of (pose_from_neutral NEUTRAL (Some
      [ (LEFT_HIP, -10); (RIGHT_HIP, -10); (LEFT_KNEE, 5);
        (RIGHT_KNEE, 5); (LEFT_ANKLE, 5); (RIGHT_ANKLE, 5) ]) []);
    pose_of (pose_from_neutral NEUTRAL (Some
      [ (LEFT_HIP, -5); (RIGHT_HIP, 5); (LEFT_KNEE, 10);
        (RIGHT_KNEE, 10); (LEFT_ANKLE, 0); (RIGHT_ANKLE, 0) ]) []);
    NEUTRAL ].

Definition HIP_LIFT_SEQUENCE : list dict :=
  [ pose_of (pose_from_neutral NEUTRAL (Some
      [ (LEFT_HIP, 15); (RIGHT_HIP, -10); (LEFT_KNEE, 30);
        (RIGHT_KNEE, 5); (LEFT_ANKLE, -15); (RIGHT_ANKLE, 0) ]) []);
    NEUTRAL;
    pose_of (pose_from_neutral NEUTRAL (Some
      [ (LEFT_HIP, -10); (RIGHT_HIP, 5); (LEFT_KNEE, 5);
        (RIGHT_KNEE, 30); (LEFT_ANKLE, 0); (RIGHT_ANKLE, -15) ]) []);
    NEUTRAL ].

Definition DEEP_HIP_SEQUENCE : list dict :=
  [ pose_of (pose_from_neutral NEUTRAL (Some
      [ (LEFT_HIP, -20); (RIGHT_HIP, -10); (LEFT_KNEE, 20);
        (RIGHT_KNEE, 15); (LEFT_ANKLE, -10); (RIGHT_ANKLE, 5) ]) []);
    NEUTRAL;
    pose_of (pose_from_neutral NEUTRAL (Some
      [ (LEFT_HIP, -10); (RIGHT_HIP, -20); (LEFT_KNEE, 15);
        (RIGHT_KNEE, 20); (LEFT_ANKLE, 5); (RIGHT_ANKLE, -10) ]) []);
    NEUTRAL ].

(* ====================================================================== *)
(** * The outside world: servo bus, clock, console *)
(* ====================================================================== *)

Inductive Leg : Type := Left | Right.

Inductive DanceMove : Type := HipSway | HipCircle | HipLifts | DeepHips.

(** One constructor per [print] statement of the scripts that carries
    information; a banner of several lines is one message. *)
Inductive Msg : Type :=
| MsgCouldNotMove (sid : Key) (e : PyExn)
| MsgMovingToNeutral
| MsgWalking (steps : Z)
| MsgStep (n steps : Z) (leg : Leg)
| MsgReturning
| MsgWalkingComplete
| MsgDancing (duration_sec : Q)
| MsgDanceMove (move : DanceMove) (sequence_count : Z)
| MsgDancingComplete
| MsgBanner
| MsgConnecting
| MsgConnected
| MsgFailedToConnect (e : PyExn)
| MsgServosInitialized
| MsgFailedToInitialize (e : PyExn)
| MsgBannerDancingComplete
| MsgReturningToNeutralStanding
| MsgReturnedToNeutralStanding
| MsgCouldNotReturnToNeutral (e : PyExn)
| MsgInterruptedByUser
| MsgUnexpectedError (e : PyExn)
| MsgReturnedAfterError
| MsgExiting.

(** What an observer of the robot and of the console sees, in order. *)
Inductive Event : Type :=
| EvConnect (fault : option BusFault)
| EvProbe (sid : Key) (fault : option BusFault)
| EvMove (sid : Key) (angle : Q) (t_ms : Z) (fault : option BusFault)
| EvSleep (secs : Q)
| EvPrint (m : Msg)
| EvInterrupt.

(** The environment of one run.  Blocking calls (a bus command, a sleep)
    are numbered in the order the program makes them; the environment
    decides, for the n-th one, whether the bus faults, whether Ctrl-C
    arrives during it, and how long it takes beyond its nominal time. *)
Record Env : Type := mkEnv {
  bus_fault : nat -> option BusFault;
  sigint : nat -> bool;
  lag : nat -> Q
}.

Record World : Type := mkWorld {
  SERVOS : list Key;   (* keys of the global registry [SERVOS] *)
  clock : Q;           (* what [time.time()] returns now *)
  tick : nat;          (* blocking calls made so far *)
  log : list Event
}.

Definition emit (e : Event) (w : World) : World :=
  mkWorld (SERVOS w) (clock w) (tick w) (log w ++ [e]).

Definition spend (d : Q) (w : World) : World :=
  mkWorld (SERVOS w) (clock w + d) (S (tick w)) (log w).

Definition set_SERVOS (s : list Key) (w : World) : World :=
  mkWorld s (clock w) (tick w) (log w).

(** ** The monad of the scripts *)

Definition M (A : Type) : Type := World -> PyResult A * World.

Definition ret {A} (a : A) : M A := fun w => (Returned a, w).

Definition bind {A B} (m : M A) (k : A -> M B) : M B :=
  fun w =>
    match m w with
    | (Returned a, w') => k a w'
    | (Raised e, w') => (Raised e, w')
    | (OutOfFuel, w') => (OutOfFuel, w')
    end.

Declare Scope py_scope.
Delimit Scope py_scope with py.
Notation "x <- c1 ;; c2" := (bind c1 (fun x => c2))
  (at level 61, c1 at next level, right associativity) : py_scope.
Notation "c1 ;; c2" := (bind c1 (fun _ => c2))
  (at level 61, right associativity) : py_scope.
Open Scope py_scope.

(** [try: m  except ...: h]: the handler says which exceptions it takes. *)
Definition try_except {A} (m : M A) (h : PyExn -> option (M A)) : M A :=
  fun w =>
    match m w with
    | (Raised e, w') =>
        match h e with
        | Some handler => handler w'
        | None => (Raised e, w')
        end
    | r => r
    end.

(** [try: m  finally: f]: [f] runs on return and on any exception; an
    exception of [f] replaces the pending one. *)
Definition try_finally {A} (m : M A) (f : M unit) : M A :=
  fun w =>
    match m w with
    | (OutOfFuel, w') => (OutOfFuel, w')
    | (r, w') =>
        match f w' with
        | (Returned _, w'') => (r, w'')
        | (Raised e, w'') => (Raised e, w'')
        | (OutOfFuel, w'') => (OutOfFuel, w'')
        end
    end.

Fixpoint for_each {A} (l : list A) (body : A -> M unit) : M unit :=
  match l with
  | [] => ret tt
  | x :: rest => body x ;; for_each rest body
  end.

(** [except Exception as e] *)
Definition except_Exception {A} (h : PyExn -> M A) (e : PyExn) : option (M A) :=
  if is_Exception e then Some (h e) else None.

(** a bare [except:] *)
Definition except_all {A} (h : M A) (e : PyExn) : option (M A) := Some h.

(** [range(n)] *)
Definition range (n : Z) : list Z := map Z.of_nat (seq 0 (Z.to_nat n)).

Definition print (m : Msg) : M unit := fun w => (Returned tt, emit (EvPrint m) w).

Definition time_time : M Q := fun w => (Returned (clock w), w).

(** CPython's [time.sleep] first converts its argument to a count of
    nanoseconds held in a signed 64-bit integer, and raises [OverflowError]
    when the count does not fit; only then does it look at the sign.  The
    bounds below are the extreme counts, in seconds.  The rounding of the
    float argument in the last nanoseconds before a bound is not modelled;
    an argument that Python cannot even turn into a float raises the same
    [OverflowError], at the same place. *)
Definition SLEEP_MAX : Q := 9223372036.854775807.
Definition SLEEP_MIN : Q := - 9223372036.854775808.

Definition sleep_overflows (secs : Q) : bool :=
  Qltb SLEEP_MAX secs || Qltb secs SLEEP_MIN.

Section Scripts.

Variable env : Env.

(** [time.sleep(secs)]: [OverflowError] for an argument out of range,
    [ValueError] for a negative one, otherwise the wait, during which
    Ctrl-C can arrive. *)
Definition time_sleep (secs : Q) : M unit :=
  fun w =>
    if sleep_overflows secs then (Raised OverflowError, w)
    else if Qltb secs 0 then (Raised ValueError, w)
    else if sigint env (tick w)
    then (Raised KeyboardInterrupt, emit EvInterrupt (spend (lag env (tick w)) w))
    else (Returned tt, emit (EvSleep secs) (spend (secs + lag env (tick w)) w)).

(** Modelled from the spec: the bus library [pylx16a] ([LX16A.initialize],
    the constructor [LX16A(id)], the method [move]) is not among the
    sources.  Section 6 gives a command the outcomes [()] and
    [ServoError{Timeout, Disconnected, Rejected}]; here the outcome of each
    call is the environment's choice, and Ctrl-C can arrive while the call
    blocks. *)
Definition bus_call (ev : option BusFault -> Event) : M unit :=
  fun w =>
    if sigint env (tick w)
    then (Raised KeyboardInterrupt, emit EvInterrupt (spend (lag env (tick w)) w))
    else
      let w' := emit (ev (bus_fault env (tick w))) (spend (lag env (tick w)) w) in
      match bus_fault env (tick w) with
      | None => (Returned tt, w')
      | Some f => (Raised (BusError f), w')
      end.

(** [SERVOS[sid].move(angle, time=t_ms)] *)
Definition servo_move (sid : Key) (angle : Q) (t_ms : Z) : M unit :=
  fun w =>
    if existsb (key_eqb sid) (SERVOS w)
    then bus_call (EvMove sid angle t_ms) w
    else (Raised (KeyError sid), w).

(** ** Pose player *)

(** The [try ... except Exception as e] statement that is the body of the
    loop of [set_pose]. *)
Definition try_move (item : Key * Q) (t_ms : Z) : M unit :=
  let '(sid, angle) := item in
  try_except
    (let angle := clampAngle angle in
     servo_move sid angle t_ms)
    (except_Exception (fun e => print (MsgCouldNotMove sid e))).

Definition set_pose (pose : dict) (t_ms : Z) : M unit :=
  for_each pose (fun item => try_move item t_ms) ;;
  time_sleep (inject_Z t_ms / 1000.0 + 0.05).

(** ** Gait composer *)

Definition walk (steps : Z) (t_ms : Z) : M unit :=
  print MsgMovingToNeutral ;;
  set_pose NEUTRAL 800 ;;
  time_sleep 0.5 ;;
  print (MsgWalking steps) ;;
  for_each (range steps) (fun step_num =>
    let '(leg_name, sequence) :=
      if (step_num mod 2 =? 0)%Z
      then (Left, LEFT_LEG_STEP_SEQUENCE)
      else (Right, RIGHT_LEG_STEP_SEQUENCE) in
    print (MsgStep (step_num + 1) steps leg_name) ;;
    for_each sequence (fun keyframe => set_pose keyframe t_ms)) ;;
  print MsgReturning ;;
  set_pose NEUTRAL 800 ;;
  print MsgWalkingComplete.

(** The body of the [while] loop of [dance] up to its closing check. *)
Definition dance_phrase (sequence_count : Z) (t_ms : Z) : M unit :=
  let sequence_num := (sequence_count mod 4)%Z in
  if (sequence_num =? 1)%Z then
    print (MsgDanceMove HipSway sequence_count) ;;
    for_each HIP_SWAY_SEQUENCE (fun keyframe => set_pose keyframe t_ms)
  else if (sequence_num =? 2)%Z then
    print (MsgDanceMove HipCircle sequence_count) ;;
    for_each HIP_CIRCLE_SEQUENCE (fun keyframe => set_pose keyframe t_ms)
  else if (sequence_num =? 3)%Z then
    print (MsgDanceMove HipLifts sequence_count) ;;
    for_each HIP_LIFT_SEQUENCE (fun keyframe => set_pose keyframe t_ms)
  else
    print (MsgDanceMove DeepHips sequence_count) ;;
    for_each DEEP_HIP_SEQUENCE (fun keyframe => set_pose keyframe t_ms).

(** The [while] loop of [dance], unrolled at most [fuel] times; it returns
    the final [sequence_count]. *)
Fixpoint dance_loop (fuel : nat) (duration_sec : Q) (t_ms : Z)
    (start_time : Q) (sequence_count : Z) : M Z :=
  match fuel with
  | O => fun w => (OutOfFuel, w)
  | S fuel' =>
      now <- time_time ;;
      if Qltb (now - start_time) duration_sec then
        let sequence_count := (sequence_count + 1)%Z in
        dance_phrase sequence_count t_ms ;;
        now <- time_time ;;
        if Qle_bool duration_sec (now - start_time)
        then ret sequence_count
        else dance_loop fuel' duration_sec t_ms start_time sequence_count
      else ret sequence_count
  end.

Definition dance (fuel : nat) (duration_sec : Q) (t_ms : Z) : M unit :=
  print MsgMovingToNeutral ;;
  set_pose NEUTRAL 800 ;;
  time_sleep 0.5 ;;
  print (MsgDancing duration_sec) ;;
  start_time <- time_time ;;
  _ <- dance_loop fuel duration_sec t_ms start_time 0%Z ;;
  print MsgReturning ;;
  set_pose NEUTRAL 800 ;;
  print MsgDancingComplete.

(** ** Session: [dance.py] *)

(** [LX16A.initialize(PORT, BAUD_RATE)] *)
Definition LX16A_initialize : M unit := bus_call EvConnect.

(** [LX16A(sid)]: the constructor talks to the servo. *)
Definition LX16A (sid : Key) : M unit := bus_call (EvProbe sid).

Definition initialize_servos : M unit :=
  LX16A LEFT_ANKLE ;;
  LX16A LEFT_KNEE ;;
  LX16A LEFT_HIP ;;
  LX16A RIGHT_ANKLE ;;
  LX16A RIGHT_KNEE ;;
  LX16A RIGHT_HIP ;;
  (fun w => (Returned tt,
             set_SERVOS [LEFT_ANKLE; LEFT_KNEE; LEFT_HIP;
                         RIGHT_ANKLE; RIGHT_KNEE; RIGHT_HIP] w)) ;;
  print MsgServosInitialized.

(** The [finally] block of [main]. *)
Definition return_to_neutral : M unit :=
  print MsgReturningToNeutralStanding ;;
  try_except
    (set_pose NEUTRAL 800 ;;
     time_sleep 0.5 ;;
     print MsgReturnedToNeutralStanding)
    (except_Exception (fun e => print (MsgCouldNotReturnToNeutral e))).

(** [main()] of [dance.py]; the two early [return]s are the [false]
    branches. *)
Definition main (fuel : nat) : M unit :=
  print MsgBanner ;;
  connected <-
    try_except
      (print MsgConnecting ;; LX16A_initialize ;; print MsgConnected ;; ret true)
      (except_Exception (fun e => print (MsgFailedToConnect e) ;; ret false)) ;;
  if negb connected then ret tt else
  servos_ok <-
    try_except
      (initialize_servos ;; ret true)
      (except_Exception (fun e => print (MsgFailedToInitialize e) ;; ret false)) ;;
  if negb servos_ok then ret tt else
  try_finally
    (dance fuel 15 400 ;;
     print MsgBannerDancingComplete)
    return_to_neutral.

(** The [if __name__ == "__main__":] block of [dance.py]. *)
Definition dunder_main (fuel : nat) : M unit :=
  try_except (main fuel)
    (fun e =>
       match e with
       | KeyboardInterrupt =>
           Some (print MsgInterruptedByUser ;;
                 try_except (set_pose NEUTRAL 800) (except_all (ret tt)) ;;
                 print MsgExiting)
       | _ =>
           Some (print (MsgUnexpectedError e) ;;
                 try_except
                   (set_pose NEUTRAL 800 ;; print MsgReturnedAfterError)
                   (except_all (ret tt)) ;;
                 print MsgExiting)
       end).

End Scripts.

(* ====================================================================== *)
(** * Object identity: [pose_from_neutral] on a store of dict objects *)
(* ====================================================================== *)

Module Objects.

(** The dict objects alive, by creation order; a reference is an index. *)
Definition store : Type := list dict.
Definition ref : Type := nat.

Definition deref (st : store) (r : ref) : dict := nth r st [].

(** Replace the object at [r], in place. *)
Fixpoint assign (st : store) (r : ref) (d : dict) : store :=
  match st, r with
  | [], _ => []
  | _ :: rest, O => d :: rest
  | x :: rest, S r' => x :: assign rest r' d
  end.

(** [dict(x)]: a new object with the items of [x]. *)
Definition dict_copy (st : store) (x : ref) : ref * store :=
  (length st, st ++ [deref st x]).

(** [pose[sid] = v] *)
Definition setitem (st : store) (pose : ref) (sid : Key) (v : Q) : store :=
  assign st pose (dict_set (deref st pose) sid v).

Fixpoint apply_deltas (NEUTRAL pose : ref) (items : dict) (st : store)
  : PyResult unit * store :=
  match items with
  | [] => (Returned tt, st)
  | (sid, delta) :: rest =>
      if dict_contains (deref st pose) sid then
        match getitem (deref st NEUTRAL) sid with
        | Returned base =>
            apply_deltas NEUTRAL pose rest (setitem st pose sid (base + delta))
        | Raised e => (Raised e, st)
        | OutOfFuel => (OutOfFuel, st)
        end
      else apply_deltas NEUTRAL pose rest st
  end.

(** [pose_from_neutral]: [NEUTRAL] and [deltas_dict] are references, the
    result is the reference of the pose built. *)
Definition pose_from_neutral (NEUTRAL : ref)
    (deltas_dict : option ref) (deltas : kwargs) (st : store)
  : PyResult ref * store :=
  let '(pose, st) := dict_copy st NEUTRAL in
  let '(r, st) :=
    match deltas_dict with
    | Some d => apply_deltas NEUTRAL pose (deref st d) st
    | None => apply_deltas NEUTRAL pose (kwargs_items deltas) st
    end in
  match r with
  | Returned _ => (Returned pose, st)
  | Raised e => (Raised e, st)
  | OutOfFuel => (OutOfFuel, st)
  end.

End Objects.

(* ====================================================================== *)
(** * Vocabulary of the statements *)
(* ====================================================================== *)

(** What the program asks of the robot: the bus commands it issues and
    the waits it makes, without their outcome and without the console. *)
Inductive Command : Type :=
| Move (sid : Key) (angle : Q) (t_ms : Z)
| Sleep (secs : Q).

Fixpoint commands (l : list Event) : list Command :=
  match l with
  | [] => []
  | EvMove sid angle t_ms _ :: rest => Move sid angle t_ms :: commands rest
  | EvSleep secs :: rest => Sleep secs :: commands rest
  | _ :: rest => commands rest
  end.

(** The console lines of a log. *)
Fixpoint printed (l : list Event) : list Msg :=
  match l with
  | [] => []
  | EvPrint m :: rest => m :: printed rest
  | _ :: rest => printed rest
  end.

(** The wait that ends [set_pose]. *)
Definition settle (t_ms : Z) : Q := inject_Z t_ms / 1000.0 + 0.05.

(** One pose played in full: a clamped command per servo, in the order of
    the pose, then the wait. *)
Definition pose_commands (pose : dict) (t_ms : Z) : list Command :=
  map (fun item => Move (fst item) (clampAngle (snd item)) t_ms) pose
  ++ [Sleep (settle t_ms)].

Definition sequence_commands (sequence : list dict) (t_ms : Z) : list Command :=
  flat_map (fun keyframe => pose_commands keyframe t_ms) sequence.

(** The sequence of a walking step, by its 0-based index. *)
Definition step_sequence (step_num : Z) : list dict :=
  if Z.even step_num then LEFT_LEG_STEP_SEQUENCE else RIGHT_LEG_STEP_SEQUENCE.

(** The phrase of a dance, by its 1-based index: round robin. *)
Definition phrase (n : Z) : list dict :=
  match (n mod 4)%Z with
  | 1%Z => HIP_SWAY_SEQUENCE
  | 2%Z => HIP_CIRCLE_SEQUENCE
  | 3%Z => HIP_LIFT_SEQUENCE
  | _ => DEEP_HIP_SEQUENCE
  end.

(** The phrases number [count+1] to [count+k]. *)
Definition phrases_from (count : Z) (k : nat) : list Z :=
  map (fun i => (count + Z.of_nat i)%Z) (seq 1 k).

(** What the loop of [set_pose] leaves in the log when nothing interrupts
    it: for each servo of the pose, in order, the command sent and, if the
    bus faults, the warning; for a servo without a handle, the warning
    alone.  [n] numbers the next blocking call. *)
Fixpoint dispatch_events (env : Env) (servos : list Key) (n : nat)
    (items : dict) (t_ms : Z) : list Event :=
  match items with
  | [] => []
  | (sid, angle) :: rest =>
      if existsb (key_eqb sid) servos then
        EvMove sid (clampAngle angle) t_ms (bus_fault env n)
        :: match bus_fault env n with
           | Some f => [EvPrint (MsgCouldNotMove sid (BusError f))]
           | None => []
           end
        ++ dispatch_events env servos (S n) rest t_ms
      else
        EvPrint (MsgCouldNotMove sid (KeyError sid))
        :: dispatch_events env servos n rest t_ms
  end.

(** No Ctrl-C from the blocking call number [t] on. *)
Definition quiet_from (env : Env) (t : nat) : Prop :=
  forall n, (t <= n)%nat -> sigint env n = false.

(** No Ctrl-C during the run. *)
Definition uninterrupted (env : Env) : Prop := forall n, sigint env n = false.

(** The registry [SERVOS] is the same after the call, however it ends. *)
Definition keeps_servos {A} (m : M A) : Prop :=
  forall w, SERVOS (snd (m w)) = SERVOS w.

Definition all_registered (servos : list Key) (pose : dict) : bool :=
  forallb (fun k => existsb (key_eqb k) servos) (dict_keys pose).

(** Blocking calls never take less than their nominal time. *)
Definition causal (env : Env) : Prop := forall n, 0 <= lag env n.

(** Every servo of the pose has its handle in [SERVOS]. *)
Definition registered (w : World) (pose : dict) : Prop :=
  forall sid, dict_contains pose sid = true ->
  existsb (key_eqb sid) (SERVOS w) = true.

Definition initialized (w : World) : Prop :=
  SERVOS w = [LEFT_ANKLE; LEFT_KNEE; LEFT_HIP; RIGHT_ANKLE; RIGHT_KNEE; RIGHT_HIP].

(** Every angle of the pose is a valid servo angle. *)
Definition in_range (pose : dict) : Prop :=
  Forall (fun item => 0 <= snd item /\ snd item <= 240) pose.

Definition in_rangeb (pose : dict) : bool :=
  forallb (fun item => Qle_bool 0 (snd item) && Qle_bool (snd item) 240) pose.

(** Unrollings that suffice for [dance] when every keyframe takes at least
    its wait: each phrase then lasts at least [settle t_ms]. *)
Definition dance_fuel (duration_sec : Q) (t_ms : Z) : nat :=
  S (Z.to_nat (Qceiling (duration_sec / settle t_ms))).

(** The statements of [dance] that precede its loop, and those that
    follow it. *)
Definition dance_opening (env : Env) (duration_sec : Q) : M unit :=
  print MsgMovingToNeutral ;;
  set_pose env NEUTRAL 800 ;;
  time_sleep env 0.5 ;;
  print (MsgDancing duration_sec).

Definition dance_closing (env : Env) : M unit :=
  print MsgReturning ;;
  set_pose env NEUTRAL 800 ;;
  print MsgDancingComplete.

(** The part of [main] that precedes the gait, when nothing fails in it:
    banner, connection, handles. *)
Definition startup (env : Env) : M unit :=
  print MsgBanner ;;
  print MsgConnecting ;;
  LX16A_initialize env ;;
  print MsgConnected ;;
  initialize_servos env.

(** The state in which the gait starts. *)
Definition started (env : Env) (w : World) : World := snd (startup env w).

(** ** Concrete runs *)

(** A bus without faults, no Ctrl-C, and calls that take their nominal
    time. *)
Definition calm : Env :=
  mkEnv (fun _ => None) (fun _ => false) (fun _ => 0).

(** As [calm], but the third bus command times out. *)
Definition third_command_times_out : Env :=
  mkEnv (fun n => if Nat.eqb n 2 then Some FaultTimeout else None)
        (fun _ => false) (fun _ => 0).

(** As [calm], but Ctrl-C arrives during the blocking call number [k]. *)
Definition ctrl_c_at (k : nat) : Env :=
  mkEnv (fun _ => None) (fun n => Nat.eqb n k) (fun _ => 0).

(** The state before [main]: no handles yet. *)
Definition fresh : World := mkWorld [] 0 0 [].

(** The state once [initialize_servos] has run. *)
Definition ready : World :=
  mkWorld [LEFT_ANKLE; LEFT_KNEE; LEFT_HIP; RIGHT_ANKLE; RIGHT_KNEE; RIGHT_HIP]
          0 0 [].

(** ** Vocabulary of the further properties *)

(** A bus command within the range of the servo. *)
Definition safe_event (ev : Event) : Prop :=
  match ev with
  | EvMove _ angle _ _ => 0 <= angle /\ angle <= 240
  | _ => True
  end.

Definition safe_log (l : list Event) : Prop := Forall safe_event l.

(** The call adds no command outside the range, however it ends. *)
Definition keeps_safe {A} (m : M A) : Prop :=
  forall w, safe_log (log w) -> safe_log (log (snd (m w))).

(** The only exception that leaves the call is [KeyboardInterrupt]. *)
Definition only_interrupt {A} (m : M A) : Prop :=
  forall w e, fst (m w) = Raised e -> e = KeyboardInterrupt.

(** The call sends no servo command and does not sleep, however it ends. *)
Definition no_command {A} (m : M A) : Prop :=
  forall w, commands (log (snd (m w))) = commands (log w).

(** Blocking calls take exactly their nominal time. *)
Definition punctual (env : Env) : Prop := forall n, lag env n == 0.

(** No servo of the pose has its handle in [SERVOS]. *)
Definition unregistered (w : World) (pose : dict) : Prop :=
  forall sid, dict_contains pose sid = true ->
  existsb (key_eqb sid) (SERVOS w) = false.

(** No Ctrl-C during the blocking calls number [a] to [b - 1]. *)
Definition quiet_between (env : Env) (a b : nat) : Prop :=
  forall n, (a <= n < b)%nat -> sigint env n = false.

(** The warnings of [set_pose] for a pose without handles. *)
Definition missing_handle_warnings (pose : dict) : list Event :=
  map (fun item => EvPrint (MsgCouldNotMove (fst item) (KeyError (fst item)))) pose.

(** As [calm], but Ctrl-C arrives during the blocking calls number [a]
    and number [b]. *)
Definition ctrl_c_twice (a b : nat) : Env :=
  mkEnv (fun _ => None) (fun n => Nat.eqb n a || Nat.eqb n b) (fun _ => 0).

(** As [calm], but the connection to the bus is refused. *)
Definition connection_refused : Env :=
  mkEnv (fun n => if Nat.eqb n 0 then Some FaultDisconnected else None)
        (fun _ => false) (fun _ => 0).

(** As [calm], but the bus library rejects every command. *)
Definition every_command_rejected : Env :=
  mkEnv (fun _ => Some FaultRejected) (fun _ => false) (fun _ => 0).

(** As [calm], but the probe of the fourth servo times out. *)
Definition fourth_probe_times_out : Env :=
  mkEnv (fun n => if Nat.eqb n 4 then Some FaultTimeout else None)
        (fun _ => false) (fun _ => 0).

(* ====================================================================== *)
(** * Verification *)
(* ====================================================================== *)

(** ** Keys and comparisons *)

Lemma key_eqb_eq (a b : Key) : key_eqb a b = true <-> a = b.
Proof.
  destruct a as [x|s], b as [y|t]; simpl; split; intros H;
    try discriminate; try (inversion H; subst).
  - apply Z.eqb_eq in H. now subst.
  - apply Z.eqb_refl.
  - apply String.eqb_eq in H. now subst.
  - apply String.eqb_refl.
Qed.

Lemma key_eqb_refl (a : Key) : key_eqb a a = true.
Proof. now apply key_eqb_eq. Qed.

Lemma key_eqb_neq (a b : Key) : key_eqb a b = false <-> a <> b.
Proof.
  split.
  - intros H E. apply key_eqb_eq in E. congruence.
  - intros H. destruct (key_eqb a b) eqn:E; [|reflexivity].
    apply key_eqb_eq in E. contradiction.
Qed.

Lemma Qltb_lt (x y : Q) : Qltb x y = true <-> x < y.
Proof.
  unfold Qltb. rewrite negb_true_iff. split.
  - intros H. apply Qnot_le_lt. intros L.
    apply Qle_bool_iff in L. congruence.
  - intros H. destruct (Qle_bool y x) eqn:E; [|reflexivity].
    apply Qle_bool_iff in E. apply Qle_not_lt in E. contradiction.
Qed.

Lemma Qltb_ge (x y : Q) : Qltb x y = false <-> y <= x.
Proof.
  unfold Qltb. rewrite negb_false_iff. apply Qle_bool_iff.
Qed.

(** ** Clamping *)

Lemma clampAngle_cases (a : Q) :
  (a <= 0 /\ clampAngle a = 0.0) \/
  (0 < a < 240 /\ clampAngle a = a) \/
  (240 <= a /\ clampAngle a = 240.0).
Proof.
  unfold clampAngle, py_max, py_min.
  destruct (Qltb a 240.0) eqn:H240.
  - apply Qltb_lt in H240.
    destruct (Qltb 0.0 a) eqn:H0.
    + apply Qltb_lt in H0. right; left. split; [split; lra | reflexivity].
    + apply Qltb_ge in H0. left. split; [lra | reflexivity].
  - apply Qltb_ge in H240. right; right. split; [lra | reflexivity].
Qed.

Lemma clampAngle_spec_cases (a : Q) :
  (a <= 0 /\ clampAngle_spec a = 0) \/
  (0 < a < 240 /\ clampAngle_spec a = a) \/
  (240 <= a /\ clampAngle_spec a = 240).
Proof.
  unfold clampAngle_spec, py_max, py_min.
  destruct (Qltb 0 a) eqn:H0.
  - apply Qltb_lt in H0.
    destruct (Qltb a 240) eqn:H240.
    + apply Qltb_lt in H240. right; left. split; [split; lra | reflexivity].
    + apply Qltb_ge in H240. right; right. split; [lra | reflexivity].
  - apply Qltb_ge in H0. left. split; [lra | reflexivity].
Qed.

Lemma clampAngle_range (a : Q) : 0 <= clampAngle a /\ clampAngle a <= 240.
Proof.
  destruct (clampAngle_cases a) as [[H E]|[[H E]|[H E]]]; rewrite E; lra.
Qed.

Example clampAngle_above : clampAngle 315.3 = 240.0.
Proof. reflexivity. Qed.

Example clampAngle_below : clampAngle (-5) = 0.0.
Proof. reflexivity. Qed.

Example clampAngle_inside : clampAngle 123.6 = 123.6.
Proof. reflexivity. Qed.

(** C8. [clampAngle], the expression [max(0.0, min(240.0, angle))] of
    [set_pose], computes [min(240, max(0, a))] for every rational [a]; as a
    function on [Q] it is total and has no failure mode; its result lies in
    [0, 240]; and it is idempotent. *)
Theorem clampAngle_is_min_max_and_idempotent :
  forall a : Q,
    clampAngle a == clampAngle_spec a /\
    clampAngle_spec a = py_min 240 (py_max 0 a) /\
    (0 <= clampAngle a /\ clampAngle a <= 240) /\
    clampAngle (clampAngle a) = clampAngle a.
Proof.
  intros a. repeat split.
  - destruct (clampAngle_cases a) as [[H E]|[[H E]|[H E]]];
      destruct (clampAngle_spec_cases a) as [[H' E']|[[H' E']|[H' E']]];
      rewrite E, E'; lra.
  - apply clampAngle_range.
  - apply clampAngle_range.
  - destruct (clampAngle_cases a) as [[H E]|[[H E]|[H E]]]; rewrite E.
    + reflexivity.
    + now rewrite E.
    + reflexivity.
Qed.

(** ** Choreography stays in range *)

Lemma in_rangeb_sound (pose : dict) : in_rangeb pose = true -> in_range pose.
Proof.
  unfold in_rangeb, in_range. rewrite forallb_forall, Forall_forall.
  intros H item Hin. specialize (H item Hin).
  apply andb_true_iff in H. destruct H as [H1 H2].
  split; now apply Qle_bool_iff.
Qed.

Lemma in_range_clamp (pose : dict) :
  in_range pose -> Forall (fun item => clampAngle (snd item) == snd item) pose.
Proof.
  unfold in_range. intros Hr. eapply Forall_impl; [|exact Hr].
  intros [sid a] [H0 H240]. simpl in *.
  destruct (clampAngle_cases a) as [[H E]|[[H E]|[H E]]]; rewrite E; lra.
Qed.

(** C9. In each of the four phrase sequences of [dance], every angle of
    every pose, as composed by [pose_from_neutral] from [NEUTRAL] and the
    choreography delta and before [set_pose] clamps anything, lies in
    [0, 240]; clamping therefore leaves it as it is. *)
Theorem dance_phrases_in_range_before_clamping :
  Forall (Forall (fun pose =>
            Forall (fun item => 0 <= snd item /\ snd item <= 240) pose /\
            Forall (fun item => clampAngle (snd item) == snd item) pose))
    [HIP_SWAY_SEQUENCE; HIP_CIRCLE_SEQUENCE; HIP_LIFT_SEQUENCE; DEEP_HIP_SEQUENCE].
Proof.
  assert (R : forallb (forallb in_rangeb)
      [HIP_SWAY_SEQUENCE; HIP_CIRCLE_SEQUENCE; HIP_LIFT_SEQUENCE; DEEP_HIP_SEQUENCE]
      = true) by (vm_compute; reflexivity).
  rewrite forallb_forall in R. apply Forall_forall. intros sequence Hs.
  specialize (R sequence Hs). rewrite forallb_forall in R.
  apply Forall_forall. intros pose Hp.
  pose proof (in_rangeb_sound pose (R pose Hp)) as Hr.
  split; [exact Hr | now apply in_range_clamp].
Qed.

(** ** Dictionaries *)

Lemma dict_contains_get (d : dict) (k : Key) :
  dict_contains d k = match dict_get d k with Some _ => true | None => false end.
Proof.
  induction d as [|[k' v] d IH]; simpl; [reflexivity|].
  destruct (key_eqb k k'); [reflexivity | exact IH].
Qed.

Lemma dict_contains_keys (d : dict) (k : Key) :
  dict_contains d k = existsb (key_eqb k) (dict_keys d).
Proof.
  induction d as [|[k' v] d IH]; simpl; [reflexivity|].
  destruct (key_eqb k k'); [reflexivity | exact IH].
Qed.

Lemma dict_get_set_same (d : dict) (k : Key) (v : Q) :
  dict_get (dict_set d k v) k = Some v.
Proof.
  induction d as [|[k' v'] d IH]; simpl.
  - now rewrite key_eqb_refl.
  - destruct (key_eqb k k') eqn:E; simpl; rewrite E; [reflexivity | exact IH].
Qed.

Lemma dict_get_set_other (d : dict) (k k' : Key) (v : Q) :
  k <> k' -> dict_get (dict_set d k v) k' = dict_get d k'.
Proof.
  intros N. induction d as [|[k0 v0] d IH]; simpl.
  - assert (E : key_eqb k' k = false) by (apply key_eqb_neq; congruence).
    now rewrite E.
  - destruct (key_eqb k k0) eqn:E; simpl.
    + apply key_eqb_eq in E. subst k0.
      assert (E' : key_eqb k' k = false) by (apply key_eqb_neq; congruence).
      now rewrite E'.
    + destruct (key_eqb k' k0); [reflexivity | exact IH].
Qed.

Lemma dict_keys_set (d : dict) (k : Key) (v : Q) :
  dict_contains d k = true -> dict_keys (dict_set d k v) = dict_keys d.
Proof.
  induction d as [|[k' v'] d IH]; simpl; [discriminate|].
  destruct (key_eqb k k') eqn:E; simpl; [reflexivity|].
  intros H. now rewrite IH.
Qed.

Lemma dict_contains_same_keys (d d' : dict) (k : Key) :
  dict_keys d = dict_keys d' -> dict_contains d k = dict_contains d' k.
Proof. intros H. now rewrite !dict_contains_keys, H. Qed.

(** ** Pose composition on values *)

Example lift_left_leg :
  hd [] LEFT_LEG_STEP_SEQUENCE =
    [ (LEFT_HIP, 215.3 + 0); (LEFT_KNEE, 123.6 + 50); (LEFT_ANKLE, 123.1 + -40);
      (RIGHT_HIP, 234.0 + 0); (RIGHT_KNEE, 107.3 + 0); (RIGHT_ANKLE, 177.4 + 0) ].
Proof. reflexivity. Qed.

Example keyword_delta_is_ignored :
  pose_from_neutral NEUTRAL None [("LEFT_KNEE"%string, 50)] = Returned NEUTRAL.
Proof. reflexivity. Qed.

Lemma apply_deltas_spec (neutral : dict) :
  forall (items pose : dict),
    dict_keys pose = dict_keys neutral ->
    exists pose',
      apply_deltas neutral items pose = Returned pose' /\
      dict_keys pose' = dict_keys neutral /\
      (forall id, dict_get items id = None ->
                  dict_get pose' id = dict_get pose id) /\
      (unique_keys items = true ->
       forall id dl bv,
         dict_get items id = Some dl -> dict_get neutral id = Some bv ->
         dict_get pose' id = Some (bv + dl)).
Proof.
  induction items as [|[sid delta] rest IH]; intros pose Hk; simpl.
  - exists pose. repeat split; auto; discriminate.
  - destruct (dict_contains pose sid) eqn:C.
    + unfold getitem.
      assert (Cn : dict_contains neutral sid = true)
        by (now rewrite <- (dict_contains_same_keys pose neutral sid Hk)).
      rewrite dict_contains_get in Cn.
      destruct (dict_get neutral sid) as [base|] eqn:G; [|discriminate].
      destruct (IH (dict_set pose sid (base + delta))) as (pose' & R & K & U & V).
      { now rewrite dict_keys_set. }
      exists pose'. split; [exact R|]. split; [exact K|]. split.
      * intros id Hid. destruct (key_eqb id sid) eqn:E; [discriminate|].
        rewrite (U id Hid). apply dict_get_set_other.
        apply key_eqb_neq in E. congruence.
      * intros Hu id dl bv Hd Hb.
        apply andb_true_iff in Hu. destruct Hu as [Hn Hu].
        destruct (key_eqb id sid) eqn:E.
        -- apply key_eqb_eq in E. subst id. inversion Hd; subst dl.
           rewrite G in Hb. inversion Hb; subst bv.
           apply negb_true_iff in Hn. rewrite dict_contains_get in Hn.
           destruct (dict_get rest sid) eqn:Gr; [discriminate|].
           rewrite (U sid Gr). apply dict_get_set_same.
        -- now apply (V Hu id dl bv).
    + destruct (IH pose Hk) as (pose' & R & K & U & V).
      exists pose'. split; [exact R|]. split; [exact K|]. split.
      * intros id Hid. destruct (key_eqb id sid) eqn:E; [discriminate|].
        now apply U.
      * intros Hu id dl bv Hd Hb.
        apply andb_true_iff in Hu. destruct Hu as [Hn Hu].
        destruct (key_eqb id sid) eqn:E.
        -- apply key_eqb_eq in E. subst id.
           rewrite (dict_contains_same_keys pose neutral sid Hk) in C.
           rewrite dict_contains_get, Hb in C. discriminate.
        -- now apply (V Hu id dl bv).
Qed.

(** [pose_from_neutral] never raises, and the pose has the keys of the
    base, in the same order. *)
Lemma pose_from_neutral_returns (b : dict) (dd : option dict) (kw : kwargs) :
  exists pose,
    pose_from_neutral b dd kw = Returned pose /\ dict_keys pose = dict_keys b.
Proof.
  unfold pose_from_neutral. destruct dd as [d|].
  - destruct (apply_deltas_spec b d b eq_refl) as (pose & R & K & _).
    now exists pose.
  - destruct (apply_deltas_spec b (kwargs_items kw) b eq_refl) as (pose & R & K & _).
    now exists pose.
Qed.

Lemma apply_deltas_skips_unknown (neutral : dict) (id : Key) (dl : Q) (d2 : dict) :
  dict_contains neutral id = false ->
  forall (d1 pose : dict),
    dict_keys pose = dict_keys neutral ->
    apply_deltas neutral (d1 ++ (id, dl) :: d2) pose =
    apply_deltas neutral (d1 ++ d2) pose.
Proof.
  intros Hid. induction d1 as [|[sid delta] d1 IH]; intros pose Hk; simpl.
  - now rewrite (dict_contains_same_keys pose neutral id Hk), Hid.
  - destruct (dict_contains pose sid) eqn:C; [|now apply IH].
    destruct (getitem neutral sid); try reflexivity.
    apply IH. now rewrite dict_keys_set.
Qed.

Lemma apply_deltas_no_match (neutral : dict) :
  forall (items pose : dict),
    (forall k, In k (dict_keys items) -> dict_contains pose k = false) ->
    apply_deltas neutral items pose = Returned pose.
Proof.
  induction items as [|[sid delta] rest IH]; intros pose H; simpl; [reflexivity|].
  rewrite (H sid) by (simpl; now left).
  apply IH. intros k Hk. apply H. simpl. now right.
Qed.

Lemma NEUTRAL_has_no_str_key (s : String.string) :
  dict_contains NEUTRAL (KStr s) = false.
Proof. reflexivity. Qed.

(** Keyword deltas never touch [NEUTRAL]'s integer keys. *)
Lemma pose_from_neutral_kwargs (kw : kwargs) :
  pose_from_neutral NEUTRAL None kw = Returned NEUTRAL.
Proof.
  unfold pose_from_neutral. apply apply_deltas_no_match.
  intros k Hk. unfold dict_keys, kwargs_items in Hk. rewrite map_map in Hk.
  apply in_map_iff in Hk. destruct Hk as ([s v] & <- & _).
  apply (NEUTRAL_has_no_str_key s).
Qed.

(** C6 (as the code has it).  A delta entry whose id is absent from the
    base is skipped by the guard [if sid in pose]: the call returns a pose,
    the same pose as without that entry, with exactly the keys of the base
    and no angle for the absent id. *)
Theorem pose_from_neutral_skips_absent_id :
  forall (b d1 d2 : dict) (id : Key) (dl : Q) (kw : kwargs),
    dict_contains b id = false ->
    exists pose,
      pose_from_neutral b (Some (d1 ++ (id, dl) :: d2)) kw = Returned pose /\
      pose_from_neutral b (Some (d1 ++ d2)) kw = Returned pose /\
      dict_keys pose = dict_keys b /\
      dict_get pose id = None.
Proof.
  intros b d1 d2 id dl kw Hid.
  destruct (pose_from_neutral_returns b (Some (d1 ++ d2)) kw) as (pose & R & K).
  exists pose. split; [|split; [exact R|split; [exact K|]]].
  - unfold pose_from_neutral in *.
    now rewrite apply_deltas_skips_unknown.
  - rewrite <- (dict_contains_same_keys pose b id K) in Hid.
    rewrite dict_contains_get in Hid.
    now destruct (dict_get pose id).
Qed.

Lemma pose_from_neutral_skips_absent_id_witness :
  dict_contains NEUTRAL (KInt 99) = false /\
  exists pose,
    pose_from_neutral NEUTRAL (Some ([(LEFT_KNEE, 50)] ++ (KInt 99, 10) :: [])) []
      = Returned pose /\
    pose_from_neutral NEUTRAL (Some ([(LEFT_KNEE, 50)] ++ [])) [] = Returned pose /\
    dict_keys pose = dict_keys NEUTRAL /\
    dict_get pose (KInt 99) = None.
Proof.
  split; [reflexivity|].
  apply (pose_from_neutral_skips_absent_id NEUTRAL [(LEFT_KNEE, 50)] []
           (KInt 99) 10 []).
  reflexivity.
Defined.

(** C6, refuted as stated: the delta [{99: 10}] names a servo id that
    [NEUTRAL] does not have, and the call returns a pose (equal to
    [NEUTRAL]) instead of failing. *)
Lemma pose_from_neutral_absent_id_no_error :
  dict_contains NEUTRAL (KInt 99) = false /\
  pose_from_neutral NEUTRAL (Some [(KInt 99, 10)]) [] = Returned NEUTRAL.
Proof. split; reflexivity. Qed.

(** ** Pose composition on objects *)

Lemma deref_assign_same (st : Objects.store) (r : Objects.ref) (d : dict) :
  (r < length st)%nat -> Objects.deref (Objects.assign st r d) r = d.
Proof.
  revert r. induction st as [|x st IH]; intros r H; simpl in *; [lia|].
  destruct r as [|r]; [reflexivity|]. apply IH. lia.
Qed.

Lemma deref_assign_other (st : Objects.store) (r r' : Objects.ref) (d : dict) :
  r <> r' -> Objects.deref (Objects.assign st r d) r' = Objects.deref st r'.
Proof.
  revert r r'. induction st as [|x st IH]; intros r r' H; simpl; [reflexivity|].
  destruct r as [|r], r' as [|r']; try reflexivity; try congruence.
  apply IH. congruence.
Qed.

Lemma assign_assign (st : Objects.store) (r : Objects.ref) (d d' : dict) :
  Objects.assign (Objects.assign st r d) r d' = Objects.assign st r d'.
Proof.
  revert r. induction st as [|x st IH]; intros r; simpl; [reflexivity|].
  destruct r as [|r]; simpl; [reflexivity|]. now rewrite IH.
Qed.

Lemma assign_deref (st : Objects.store) (r : Objects.ref) :
  Objects.assign st r (Objects.deref st r) = st.
Proof.
  revert r. induction st as [|x st IH]; intros r; simpl; [reflexivity|].
  destruct r as [|r]; simpl; [reflexivity|].
  unfold Objects.deref in *. simpl. now rewrite IH.
Qed.

Lemma length_assign (st : Objects.store) (r : Objects.ref) (d : dict) :
  length (Objects.assign st r d) = length st.
Proof.
  revert r. induction st as [|x st IH]; intros r; simpl; [reflexivity|].
  destruct r as [|r]; simpl; [reflexivity|]. now rewrite IH.
Qed.

(** The loop on the store updates the object [pose] exactly as the loop on
    values updates its dictionary, and touches no other object. *)
Lemma objects_apply_deltas (N p : Objects.ref) :
  N <> p ->
  forall (items : dict) (st : Objects.store) (pose' : dict),
    (p < length st)%nat ->
    apply_deltas (Objects.deref st N) items (Objects.deref st p) = Returned pose' ->
    Objects.apply_deltas N p items st = (Returned tt, Objects.assign st p pose').
Proof.
  intros Hne. induction items as [|[sid delta] rest IH]; intros st pose' Hp; simpl.
  - intros H. inversion H; subst. now rewrite assign_deref.
  - destruct (dict_contains (Objects.deref st p) sid).
    + destruct (getitem (Objects.deref st N) sid) as [base| |]; try discriminate.
      intros H. unfold Objects.setitem.
      rewrite (IH _ pose').
      * now rewrite assign_assign.
      * now rewrite length_assign.
      * rewrite deref_assign_other by congruence.
        now rewrite deref_assign_same.
    + now apply IH.
Qed.

Lemma deref_app_old (st : Objects.store) (d : dict) (r : Objects.ref) :
  (r < length st)%nat -> Objects.deref (st ++ [d]) r = Objects.deref st r.
Proof. intros H. unfold Objects.deref. now apply app_nth1. Qed.

Lemma deref_app_new (st : Objects.store) (d : dict) :
  Objects.deref (st ++ [d]) (length st) = d.
Proof. unfold Objects.deref. apply nth_middle. Qed.

(** The object returned is new, holds the pose that [pose_from_neutral]
    computes on values, and every object that existed is as it was. *)
Lemma objects_pose_from_neutral (st : Objects.store) (N : Objects.ref)
    (dd : option Objects.ref) (kw : kwargs) :
  (N < length st)%nat ->
  exists pose st',
    pose_from_neutral (Objects.deref st N)
      (option_map (Objects.deref (st ++ [Objects.deref st N])) dd) kw
      = Returned pose /\
    Objects.pose_from_neutral N dd kw st = (Returned (length st), st') /\
    length st' = S (length st) /\
    Objects.deref st' (length st) = pose /\
    (forall r, (r < length st)%nat -> Objects.deref st' r = Objects.deref st r).
Proof.
  intros HN.
  set (st1 := st ++ [Objects.deref st N]).
  destruct (pose_from_neutral_returns (Objects.deref st N)
              (option_map (Objects.deref st1) dd) kw) as (pose & R & K).
  exists pose, (Objects.assign st1 (length st) pose).
  assert (L1 : (length st < length st1)%nat)
    by (unfold st1; rewrite length_app; simpl; lia).
  assert (DN : Objects.deref st1 N = Objects.deref st N)
    by (now apply deref_app_old).
  assert (DP : Objects.deref st1 (length st) = Objects.deref st N)
    by (apply deref_app_new).
  split; [exact R|]. split; [|split; [|split]].
  - unfold Objects.pose_from_neutral, Objects.dict_copy. fold st1.
    unfold pose_from_neutral in R.
    destruct dd as [d|]; simpl in R.
    + rewrite (objects_apply_deltas N (length st) ltac:(lia) _ st1 pose L1);
        [reflexivity|]. now rewrite DN, DP.
    + rewrite (objects_apply_deltas N (length st) ltac:(lia) _ st1 pose L1);
        [reflexivity|]. now rewrite DN, DP.
  - rewrite length_assign. unfold st1. rewrite length_app. simpl. lia.
  - now apply deref_assign_same.
  - intros r Hr. rewrite deref_assign_other by lia. now apply deref_app_old.
Qed.

(** C10.  Wherever the object [NEUTRAL] lives in the store: a call with
    keyword deltas only ([deltas_dict] is [None]) returns, without raising,
    a pose equal to [NEUTRAL], because no string key is a key of [NEUTRAL];
    and every call returns a reference that did not exist before (a new
    dict) whose keys are those of [NEUTRAL], and leaves every existing
    object, [NEUTRAL] among them, as it was. *)
Theorem pose_from_neutral_fresh_copy_never_mutates_NEUTRAL :
  forall (st : Objects.store) (N : Objects.ref)
         (deltas_dict : option Objects.ref) (deltas : kwargs),
    (N < length st)%nat ->
    Objects.deref st N = NEUTRAL ->
    (forall s, dict_contains NEUTRAL (KStr s) = false) /\
    pose_from_neutral NEUTRAL None deltas = Returned NEUTRAL /\
    exists st',
      Objects.pose_from_neutral N deltas_dict deltas st
        = (Returned (length st), st') /\
      length st' = S (length st) /\
      (forall r, (r < length st)%nat -> Objects.deref st' r = Objects.deref st r) /\
      Objects.deref st' N = NEUTRAL /\
      dict_keys (Objects.deref st' (length st)) = dict_keys NEUTRAL /\
      (deltas_dict = None -> Objects.deref st' (length st) = NEUTRAL).
Proof.
  intros st N dd kw HN HD.
  split; [exact NEUTRAL_has_no_str_key|].
  split; [apply pose_from_neutral_kwargs|].
  destruct (objects_pose_from_neutral st N dd kw HN) as (pose & st' & R & O & L & P & F).
  exists st'. split; [exact O|]. split; [exact L|]. split; [exact F|].
  split; [now rewrite F|]. rewrite P. rewrite HD in R. split.
  - destruct (pose_from_neutral_returns NEUTRAL
                (option_map (Objects.deref (st ++ [NEUTRAL])) dd) kw) as (q & R' & K).
    rewrite R in R'. inversion R'; subst. exact K.
  - intros ->. cbn [option_map] in R. rewrite pose_from_neutral_kwargs in R.
    now inversion R.
Qed.

Lemma pose_from_neutral_fresh_copy_never_mutates_NEUTRAL_witness :
  (0 < length [NEUTRAL])%nat /\
  Objects.deref [NEUTRAL] 0%nat = NEUTRAL /\
  exists st',
    Objects.pose_from_neutral 0%nat None [("LEFT_KNEE"%string, 50)] [NEUTRAL]
      = (Returned 1%nat, st') /\
    Objects.deref st' 0%nat = NEUTRAL /\
    Objects.deref st' 1%nat = NEUTRAL.
Proof.
  split; [simpl; lia|]. split; [reflexivity|].
  destruct (pose_from_neutral_fresh_copy_never_mutates_NEUTRAL
              [NEUTRAL] 0%nat None [("LEFT_KNEE"%string, 50)])
    as (_ & _ & st' & O & _ & _ & HN & _ & HP).
  - simpl; lia.
  - reflexivity.
  - exists st'. split; [exact O|]. split; [exact HN|]. now apply HP.
Defined.

(** ** Running the monad *)

Lemma bind_returned {A B} (m : M A) (k : A -> M B) (w w' : World) (a : A) :
  m w = (Returned a, w') -> bind m k w = k a w'.
Proof. intros H. unfold bind. now rewrite H. Qed.

Lemma bind_raised {A B} (m : M A) (k : A -> M B) (w w' : World) (e : PyExn) :
  m w = (Raised e, w') -> bind m k w = (Raised e, w').
Proof. intros H. unfold bind. now rewrite H. Qed.

Lemma bind_time_time {B} (k : Q -> M B) (w : World) :
  bind time_time k w = k (clock w) w.
Proof. reflexivity. Qed.

Lemma bind_inv_returned {A B} (m : M A) (k : A -> M B) (w w2 : World) (b : B) :
  bind m k w = (Returned b, w2) ->
  exists a w1, m w = (Returned a, w1) /\ k a w1 = (Returned b, w2).
Proof.
  unfold bind. destruct (m w) as [[a|e|] w1]; try discriminate.
  intros H. now exists a, w1.
Qed.

Lemma try_except_returned {A} (m : M A) (h : PyExn -> option (M A))
    (w w' : World) (a : A) :
  m w = (Returned a, w') -> try_except m h w = (Returned a, w').
Proof. intros H. unfold try_except. now rewrite H. Qed.

Lemma print_run (m : Msg) (w : World) :
  print m w = (Returned tt, emit (EvPrint m) w).
Proof. reflexivity. Qed.

(** [run H]: the first statement of the program in the goal returns, by
    [H]; go on with the rest. *)
Tactic Notation "run" open_constr(H) :=
  rewrite (bind_returned _ _ _ _ _ H).
Tactic Notation "run" open_constr(H) "in" hyp(G) :=
  rewrite (bind_returned _ _ _ _ _ H) in G.

(** ** Logs *)

Lemma commands_app (a b : list Event) :
  commands (a ++ b) = commands a ++ commands b.
Proof.
  induction a as [|e a IH]; simpl; [reflexivity|].
  destruct e; simpl; now rewrite IH.
Qed.

Lemma quiet_from_le (env : Env) (t t' : nat) :
  quiet_from env t -> (t <= t')%nat -> quiet_from env t'.
Proof. intros H L n Hn. apply H. lia. Qed.

Lemma uninterrupted_quiet (env : Env) (t : nat) :
  uninterrupted env -> quiet_from env t.
Proof. intros H n _. apply H. Qed.

Lemma registered_cons (w : World) (sid : Key) (angle : Q) (rest : dict) :
  registered w ((sid, angle) :: rest) ->
  existsb (key_eqb sid) (SERVOS w) = true /\ registered w rest.
Proof.
  intros H. split.
  - apply H. simpl. now rewrite key_eqb_refl.
  - intros k Hk. apply H. simpl. rewrite Hk. now destruct (key_eqb k sid).
Qed.

Lemma all_registered_sound (w : World) (pose : dict) :
  all_registered (SERVOS w) pose = true -> registered w pose.
Proof.
  unfold all_registered, registered. rewrite forallb_forall.
  intros H sid C. rewrite dict_contains_keys in C.
  apply existsb_exists in C. destruct C as (k & Hin & E).
  apply key_eqb_eq in E. subst k. now apply H.
Qed.

Lemma registered_same_servos (w w' : World) (pose : dict) :
  SERVOS w' = SERVOS w -> registered w pose -> registered w' pose.
Proof. unfold registered. intros E H sid C. rewrite E. now apply H. Qed.

(** ** The pose player *)

Lemma try_move_run (env : Env) (sid : Key) (angle : Q) (t_ms : Z) (w : World) :
  sigint env (tick w) = false ->
  try_move env (sid, angle) t_ms w =
    if existsb (key_eqb sid) (SERVOS w) then
      let w1 := emit (EvMove sid (clampAngle angle) t_ms (bus_fault env (tick w)))
                     (spend (lag env (tick w)) w) in
      match bus_fault env (tick w) with
      | None => (Returned tt, w1)
      | Some f => (Returned tt, emit (EvPrint (MsgCouldNotMove sid (BusError f))) w1)
      end
    else (Returned tt, emit (EvPrint (MsgCouldNotMove sid (KeyError sid))) w).
Proof.
  intros Hq. unfold try_move, try_except, servo_move, bus_call.
  destruct (existsb (key_eqb sid) (SERVOS w)); [|reflexivity].
  rewrite Hq. destruct (bus_fault env (tick w)); reflexivity.
Qed.

Lemma dispatch_run (env : Env) (t_ms : Z) :
  forall (pose : dict) (w : World),
    quiet_from env (tick w) ->
    exists w',
      for_each pose (fun item => try_move env item t_ms) w = (Returned tt, w') /\
      log w' = log w ++ dispatch_events env (SERVOS w) (tick w) pose t_ms /\
      SERVOS w' = SERVOS w /\
      (tick w <= tick w')%nat /\
      (registered w pose -> tick w' = (tick w + length pose)%nat) /\
      (causal env -> clock w <= clock w').
Proof.
  induction pose as [|[sid angle] rest IH]; intros w Hq.
  - exists w. simpl. rewrite app_nil_r.
    repeat split; auto; try lia. intros _. apply Qle_refl.
  - cbn [for_each]. unfold bind at 1.
    rewrite try_move_run by (apply Hq; lia).
    cbn [dispatch_events].
    destruct (existsb (key_eqb sid) (SERVOS w)) eqn:Hreg.
    + set (w1 := emit _ (spend _ w)).
      assert (T1 : tick w1 = S (tick w)) by reflexivity.
      assert (S1 : SERVOS w1 = SERVOS w) by reflexivity.
      assert (C1 : clock w1 = clock w + lag env (tick w)) by reflexivity.
      destruct (bus_fault env (tick w)) as [f|] eqn:Hf.
      * set (w2 := emit _ w1).
        destruct (IH w2) as (w' & R & L & Sv & T & Tr & Cl).
        { eapply quiet_from_le; [exact Hq|]. simpl. lia. }
        exists w'. split; [exact R|]. split; [|split; [|split; [|split]]].
        -- rewrite L. simpl. rewrite <- !app_assoc. reflexivity.
        -- now rewrite Sv.
        -- simpl in T. lia.
        -- intros Hr. apply registered_cons in Hr. destruct Hr as [_ Hr].
           rewrite Tr by exact Hr. simpl. lia.
        -- intros Hc. specialize (Cl Hc). simpl in Cl.
           pose proof (Hc (tick w)). lra.
      * destruct (IH w1) as (w' & R & L & Sv & T & Tr & Cl).
        { eapply quiet_from_le; [exact Hq|]. simpl. lia. }
        exists w'. split; [exact R|]. split; [|split; [|split; [|split]]].
        -- rewrite L. simpl. rewrite <- !app_assoc. reflexivity.
        -- now rewrite Sv.
        -- simpl in T. lia.
        -- intros Hr. apply registered_cons in Hr. destruct Hr as [_ Hr].
           rewrite Tr by exact Hr. simpl. lia.
        -- intros Hc. specialize (Cl Hc). simpl in Cl.
           pose proof (Hc (tick w)). lra.
    + set (w1 := emit _ w).
      destruct (IH w1) as (w' & R & L & Sv & T & Tr & Cl).
      { exact Hq. }
      exists w'. split; [exact R|]. split; [|split; [|split; [|split]]].
      * rewrite L. simpl. rewrite <- !app_assoc. reflexivity.
      * now rewrite Sv.
      * simpl in T. lia.
      * intros Hr. apply registered_cons in Hr. destruct Hr as [Hr _].
        congruence.
      * intros Hc. specialize (Cl Hc). exact Cl.
Qed.

Lemma settle_eq (t_ms : Z) : settle t_ms == inject_Z t_ms * (1 # 1000) + (1 # 20).
Proof. unfold settle, Qdiv. change (/ 1000.0) with (10 # 10000). lra. Qed.

Lemma settle_nonneg (t_ms : Z) : (-50 <= t_ms)%Z -> 0 <= settle t_ms.
Proof.
  intros H. rewrite settle_eq. rewrite Zle_Qle in H.
  change (inject_Z (-50)) with (-50 # 1) in H. lra.
Qed.

(** Up to nine billion seconds either way the wait is within the range of
    [time.sleep]. *)
Lemma settle_fits (t_ms : Z) :
  (-9000000000000 <= t_ms <= 9000000000000)%Z ->
  sleep_overflows (settle t_ms) = false.
Proof.
  intros [Hl Hh]. unfold sleep_overflows. apply orb_false_iff.
  rewrite !Qltb_ge. rewrite Zle_Qle in Hl, Hh.
  change (inject_Z (-9000000000000)) with (-9000000000000 # 1) in Hl.
  change (inject_Z 9000000000000) with (9000000000000 # 1) in Hh.
  unfold SLEEP_MAX, SLEEP_MIN. rewrite settle_eq. split; lra.
Qed.

Lemma settle_pos (t_ms : Z) : (-50 < t_ms)%Z -> 0 < settle t_ms.
Proof.
  intros H. rewrite settle_eq. rewrite Zlt_Qlt in H.
  change (inject_Z (-50)) with (-50 # 1) in H. lra.
Qed.

Lemma time_sleep_run (env : Env) (secs : Q) (w : World) :
  sleep_overflows secs = false -> 0 <= secs -> sigint env (tick w) = false ->
  time_sleep env secs w =
    (Returned tt, emit (EvSleep secs) (spend (secs + lag env (tick w)) w)).
Proof.
  intros Ho H Hq. unfold time_sleep.
  assert (E : Qltb secs 0 = false) by (now apply Qltb_ge).
  now rewrite Ho, E, Hq.
Qed.

(** The wait that ends [set_pose], for a duration in range. *)
Lemma settle_sleep_run (env : Env) (t_ms : Z) (w : World) :
  (-50 <= t_ms <= 9000000000000)%Z -> sigint env (tick w) = false ->
  time_sleep env (inject_Z t_ms / 1000.0 + 0.05) w =
    (Returned tt,
     emit (EvSleep (settle t_ms)) (spend (settle t_ms + lag env (tick w)) w)).
Proof.
  intros Ht Hq. change (inject_Z t_ms / 1000.0 + 0.05) with (settle t_ms).
  apply time_sleep_run; [apply settle_fits; lia | apply settle_nonneg; lia | exact Hq].
Qed.

(** The pause of half a second. *)
Lemma pause_run (env : Env) (w : World) :
  sigint env (tick w) = false ->
  time_sleep env 0.5 w =
    (Returned tt, emit (EvSleep 0.5) (spend (0.5 + lag env (tick w)) w)).
Proof.
  intros Hq. apply time_sleep_run; [reflexivity | unfold Qle; simpl; lia | exact Hq].
Qed.

Lemma commands_dispatch (env : Env) (w : World) (t_ms : Z) :
  forall (pose : dict) (n : nat),
    registered w pose ->
    commands (dispatch_events env (SERVOS w) n pose t_ms) =
    map (fun item => Move (fst item) (clampAngle (snd item)) t_ms) pose.
Proof.
  induction pose as [|[sid angle] rest IH]; intros n Hr; [reflexivity|].
  apply registered_cons in Hr. destruct Hr as [Hs Hr].
  cbn [dispatch_events]. rewrite Hs. cbn [commands map fst snd].
  rewrite commands_app, (IH (S n) Hr).
  now destruct (bus_fault env n).
Qed.

Lemma set_pose_run (env : Env) (pose : dict) (t_ms : Z) (w : World) :
  quiet_from env (tick w) -> (-50 <= t_ms <= 9000000000000)%Z ->
  exists w',
    set_pose env pose t_ms w = (Returned tt, w') /\
    log w' = log w ++ dispatch_events env (SERVOS w) (tick w) pose t_ms
                   ++ [EvSleep (settle t_ms)] /\
    SERVOS w' = SERVOS w /\
    (tick w < tick w')%nat /\
    (registered w pose ->
     commands (log w') = commands (log w) ++ pose_commands pose t_ms) /\
    (causal env -> clock w + settle t_ms <= clock w').
Proof.
  intros Hq Ht.
  destruct (dispatch_run env t_ms pose w Hq) as (w1 & R & L & Sv & T & _ & Cl).
  unfold set_pose, bind. rewrite R.
  rewrite settle_sleep_run by (try apply Hq; auto).
  eexists. split; [reflexivity|]. cbn [log SERVOS tick clock emit spend].
  split; [|split; [|split; [|split]]].
  - rewrite L. now rewrite <- app_assoc.
  - exact Sv.
  - lia.
  - intros Hr. rewrite L. rewrite <- app_assoc, !commands_app.
    rewrite (commands_dispatch env w t_ms pose (tick w) Hr). reflexivity.
  - intros Hc. specialize (Cl Hc). pose proof (Hc (tick w1)). lra.
Qed.




(** ** Sequences of keyframes *)

Lemma commands_emit_print (m : Msg) (w : World) :
  commands (log (emit (EvPrint m) w)) = commands (log w).
Proof. simpl. rewrite commands_app. simpl. apply app_nil_r. Qed.

Lemma sequence_run (env : Env) (t_ms : Z) :
  (-50 <= t_ms <= 9000000000000)%Z ->
  forall (sequence : list dict) (w : World),
    quiet_from env (tick w) ->
    (forall pose, In pose sequence -> registered w pose) ->
    exists w',
      for_each sequence (fun keyframe => set_pose env keyframe t_ms) w
        = (Returned tt, w') /\
      commands (log w') = commands (log w) ++ sequence_commands sequence t_ms /\
      SERVOS w' = SERVOS w /\
      (tick w <= tick w')%nat /\
      (causal env -> clock w <= clock w') /\
      (causal env -> sequence <> [] -> clock w + settle t_ms <= clock w').
Proof.
  intros Ht. induction sequence as [|pose rest IH]; intros w Hq Hr.
  - exists w. simpl. rewrite app_nil_r. repeat split; auto.
    + intros _. apply Qle_refl.
    + intros _ H. congruence.
  - destruct (set_pose_run env pose t_ms w Hq Ht) as (w1 & R1 & _ & S1 & T1 & C1 & K1).
    destruct (IH w1) as (w' & R & C & Sv & T & K & _).
    { eapply quiet_from_le; [exact Hq | lia]. }
    { intros p Hp. apply (registered_same_servos w w1 p S1). apply Hr. now right. }
    exists w'. cbn [for_each]. unfold bind at 1. rewrite R1.
    split; [exact R|]. split; [|split; [|split; [|split]]].
    + rewrite C, C1 by (apply Hr; now left).
      unfold sequence_commands. simpl. now rewrite <- app_assoc.
    + congruence.
    + lia.
    + intros Hc. specialize (K Hc). specialize (K1 Hc).
      pose proof (settle_nonneg t_ms ltac:(lia)). lra.
    + intros Hc _. specialize (K Hc). specialize (K1 Hc). lra.
Qed.

Lemma choreography_registered (w : World) :
  initialized w ->
  registered w NEUTRAL /\
  forall sequence,
    In sequence [LEFT_LEG_STEP_SEQUENCE; RIGHT_LEG_STEP_SEQUENCE;
                 HIP_SWAY_SEQUENCE; HIP_CIRCLE_SEQUENCE;
                 HIP_LIFT_SEQUENCE; DEEP_HIP_SEQUENCE] ->
    forall pose, In pose sequence -> registered w pose.
Proof.
  intros Hi. split.
  - apply all_registered_sound. rewrite Hi. reflexivity.
  - assert (R : forallb (forallb (all_registered (SERVOS w)))
                  [LEFT_LEG_STEP_SEQUENCE; RIGHT_LEG_STEP_SEQUENCE;
                   HIP_SWAY_SEQUENCE; HIP_CIRCLE_SEQUENCE;
                   HIP_LIFT_SEQUENCE; DEEP_HIP_SEQUENCE] = true)
      by (rewrite Hi; vm_compute; reflexivity).
    rewrite forallb_forall in R. intros sequence Hs pose Hp.
    specialize (R sequence Hs). rewrite forallb_forall in R.
    apply all_registered_sound. now apply R.
Qed.

Lemma initialized_same_servos (w w' : World) :
  SERVOS w' = SERVOS w -> initialized w -> initialized w'.
Proof. unfold initialized. congruence. Qed.

(** The opening of [walk] and of [dance]: [NEUTRAL] at 800 ms, then the
    pause of half a second. *)
Lemma neutral_settle_run (env : Env) (w : World) :
  quiet_from env (tick w) -> initialized w ->
  exists w1 w',
    set_pose env NEUTRAL 800 w = (Returned tt, w1) /\
    time_sleep env 0.5 w1 = (Returned tt, w') /\
    commands (log w') = commands (log w) ++ pose_commands NEUTRAL 800 ++ [Sleep 0.5] /\
    SERVOS w' = SERVOS w /\
    (tick w <= tick w')%nat /\
    (causal env -> clock w <= clock w').
Proof.
  intros Hq Hi.
  destruct (set_pose_run env NEUTRAL 800 w Hq ltac:(lia)) as (w1 & R1 & _ & S1 & T1 & C1 & K1).
  exists w1. eexists. split; [exact R1|]. split.
  - apply pause_run. apply Hq. lia.
  - cbn [log SERVOS tick clock emit spend].
    split; [|split; [|split]]; [| exact S1 | lia |].
    + rewrite commands_app, C1 by (now apply choreography_registered).
      now rewrite <- app_assoc.
    + intros Hc. specialize (K1 Hc). pose proof (Hc (tick w1)).
      pose proof (settle_nonneg 800 ltac:(lia)). lra.
Qed.

(** ** Walking *)

Lemma step_test_even (step_num : Z) : (step_num mod 2 =? 0)%Z = Z.even step_num.
Proof.
  rewrite Zmod_even. now destruct (Z.even step_num).
Qed.

Lemma step_sequence_in (step_num : Z) :
  In (step_sequence step_num)
     [LEFT_LEG_STEP_SEQUENCE; RIGHT_LEG_STEP_SEQUENCE;
      HIP_SWAY_SEQUENCE; HIP_CIRCLE_SEQUENCE;
      HIP_LIFT_SEQUENCE; DEEP_HIP_SEQUENCE].
Proof.
  unfold step_sequence. destruct (Z.even step_num); simpl; auto.
Qed.

Lemma walk_steps_run (env : Env) (steps t_ms : Z) :
  (-50 <= t_ms <= 9000000000000)%Z ->
  forall (l : list Z) (w : World),
    quiet_from env (tick w) -> initialized w ->
    exists w',
      for_each l (fun step_num =>
        let '(leg_name, sequence) :=
          if (step_num mod 2 =? 0)%Z
          then (Left, LEFT_LEG_STEP_SEQUENCE)
          else (Right, RIGHT_LEG_STEP_SEQUENCE) in
        print (MsgStep (step_num + 1) steps leg_name) ;;
        for_each sequence (fun keyframe => set_pose env keyframe t_ms)) w
        = (Returned tt, w') /\
      commands (log w') =
        commands (log w)
        ++ flat_map (fun step_num => sequence_commands (step_sequence step_num) t_ms) l /\
      SERVOS w' = SERVOS w /\
      (tick w <= tick w')%nat.
Proof.
  intros Ht. induction l as [|step_num rest IH]; intros w Hq Hi.
  - exists w. simpl. rewrite app_nil_r. repeat split; auto.
  - cbn [for_each]. unfold bind at 1.
    assert (E : (let '(leg_name, sequence) :=
                   if (step_num mod 2 =? 0)%Z
                   then (Left, LEFT_LEG_STEP_SEQUENCE)
                   else (Right, RIGHT_LEG_STEP_SEQUENCE) in
                 print (MsgStep (step_num + 1) steps leg_name) ;;
                 for_each sequence (fun keyframe => set_pose env keyframe t_ms))
                =
                (print (MsgStep (step_num + 1) steps
                          (if Z.even step_num then Left else Right)) ;;
                 for_each (step_sequence step_num)
                          (fun keyframe => set_pose env keyframe t_ms))).
    { rewrite step_test_even. unfold step_sequence.
      now destruct (Z.even step_num). }
    rewrite E. clear E. unfold bind at 1. rewrite print_run.
    set (w0 := emit _ w).
    destruct (sequence_run env t_ms Ht (step_sequence step_num) w0) as
      (w1 & R1 & C1 & S1 & T1 & _).
    { exact Hq. }
    { apply (choreography_registered w0 Hi). apply step_sequence_in. }
    rewrite R1.
    destruct (IH w1) as (w' & R & C & Sv & T).
    { eapply quiet_from_le; [exact Hq|]. simpl in T1. exact T1. }
    { apply (initialized_same_servos w w1); [|exact Hi]. now rewrite S1. }
    exists w'. split; [exact R|]. split; [|split].
    + rewrite C, C1. unfold w0. rewrite commands_emit_print.
      simpl. now rewrite <- app_assoc.
    + rewrite Sv, S1. reflexivity.
    + simpl in T1. lia.
Qed.

Lemma even_of_nat (i : nat) : Z.even (Z.of_nat i) = Nat.even i.
Proof.
  induction i as [|i IH]; [reflexivity|].
  rewrite Nat2Z.inj_succ, Z.even_succ, Nat.even_succ.
  rewrite <- Z.negb_even, <- Nat.negb_even. now rewrite IH.
Qed.

Lemma length_range (n : Z) : length (range n) = Z.to_nat n.
Proof. unfold range. now rewrite length_map, length_seq. Qed.

Lemma nth_range (n : Z) (i : nat) :
  (i < Z.to_nat n)%nat -> nth i (range n) 0%Z = Z.of_nat i.
Proof.
  intros H. unfold range.
  change 0%Z with (Z.of_nat 0). rewrite map_nth. now rewrite seq_nth.
Qed.

(** C3 (as the code has it).  Without Ctrl-C, with the six handles in
    place and a duration per keyframe from -50 ms to 9 000 000 000 000 ms
    (the range in which [time.sleep] accepts the wait), [walk] returns
    normally and sends: [NEUTRAL] at 800 ms followed by the pause of 0.5 s; then, for
    each step index [0 .. steps-1] in order, the four keyframes of the
    left-leg sequence when the index is even and of the right-leg sequence
    when it is odd, each at [t_ms]; and last [NEUTRAL] at 800 ms, after
    which [walk] returns without a further pause. *)
Theorem walk_alternates_legs_between_neutral_poses :
  forall (env : Env) (steps t_ms : Z) (w : World),
    uninterrupted env -> (-50 <= t_ms <= 9000000000000)%Z -> initialized w ->
    exists w',
      walk env steps t_ms w = (Returned tt, w') /\
      commands (log w') =
        commands (log w)
        ++ (pose_commands NEUTRAL 800 ++ [Sleep 0.5])
        ++ flat_map (fun step_num => sequence_commands (step_sequence step_num) t_ms)
                    (range steps)
        ++ pose_commands NEUTRAL 800 /\
      length (range steps) = Z.to_nat steps /\
      (forall i, (i < Z.to_nat steps)%nat ->
         nth i (range steps) 0%Z = Z.of_nat i /\
         step_sequence (Z.of_nat i) =
           if Nat.even i then LEFT_LEG_STEP_SEQUENCE else RIGHT_LEG_STEP_SEQUENCE) /\
      length LEFT_LEG_STEP_SEQUENCE = 4%nat /\
      length RIGHT_LEG_STEP_SEQUENCE = 4%nat.
Proof.
  intros env steps t_ms w Hu Ht Hi.
  assert (Hq : forall t, quiet_from env t)
    by (intros t; now apply uninterrupted_quiet).
  unfold walk.
  run (print_run _ w).
  set (w0 := emit _ w).
  destruct (neutral_settle_run env w0 (Hq _) Hi)
    as (wa & w1 & Ra & R1 & C1 & S1 & _).
  run Ra. run R1.
  run (print_run _ w1).
  set (w2 := emit _ w1).
  assert (I2 : initialized w2)
    by (apply (initialized_same_servos w w2); [exact S1 | exact Hi]).
  destruct (walk_steps_run env steps t_ms Ht (range steps) w2 (Hq _) I2)
    as (w3 & R3 & C3 & S3 & _).
  run R3.
  run (print_run _ w3).
  set (w4 := emit _ w3).
  assert (I4 : initialized w4)
    by (apply (initialized_same_servos w2 w4); [exact S3 | exact I2]).
  destruct (set_pose_run env NEUTRAL 800 w4 (Hq _) ltac:(lia))
    as (w5 & R5 & _ & _ & _ & C5 & _).
  run R5. rewrite print_run.
  eexists. split; [reflexivity|]. split; [|split; [|split; [|split]]].
  - rewrite commands_emit_print.
    rewrite C5 by (now apply choreography_registered).
    unfold w4. rewrite commands_emit_print, C3.
    unfold w2. rewrite commands_emit_print, C1.
    unfold w0. rewrite commands_emit_print.
    now rewrite <- !app_assoc.
  - apply length_range.
  - intros i Hlt. split; [now apply nth_range|].
    unfold step_sequence. now rewrite even_of_nat.
  - reflexivity.
  - reflexivity.
Qed.

Lemma walk_alternates_legs_between_neutral_poses_witness :
  uninterrupted calm /\ (-50 <= 500 <= 9000000000000)%Z /\ initialized ready /\
  exists w',
    walk calm 6 500 ready = (Returned tt, w') /\
    commands (log w') =
      (pose_commands NEUTRAL 800 ++ [Sleep 0.5])
      ++ sequence_commands LEFT_LEG_STEP_SEQUENCE 500
      ++ sequence_commands RIGHT_LEG_STEP_SEQUENCE 500
      ++ sequence_commands LEFT_LEG_STEP_SEQUENCE 500
      ++ sequence_commands RIGHT_LEG_STEP_SEQUENCE 500
      ++ sequence_commands LEFT_LEG_STEP_SEQUENCE 500
      ++ sequence_commands RIGHT_LEG_STEP_SEQUENCE 500
      ++ pose_commands NEUTRAL 800.
Proof.
  split; [intros n; reflexivity|]. split; [lia|]. split; [reflexivity|].
  destruct (walk_alternates_legs_between_neutral_poses calm 6 500 ready)
    as (w' & R & C & _).
  - intros n. reflexivity.
  - lia.
  - reflexivity.
  - exists w'. split; [exact R|]. rewrite C. vm_compute. reflexivity.
Defined.

(** C3, refuted as stated: [walk(1, 500)] ends with the wait of
    [set_pose(NEUTRAL, 800)]; the pause of 0.5 s that follows the first
    neutral pose does not follow the last one, so the commands sent are not
    those of a run closed by the extended settle. *)
Lemma walk_final_neutral_has_no_pause :
  fst (walk calm 1 500 ready) = Returned tt /\
  commands (log (snd (walk calm 1 500 ready))) =
    (pose_commands NEUTRAL 800 ++ [Sleep 0.5])
    ++ sequence_commands LEFT_LEG_STEP_SEQUENCE 500
    ++ pose_commands NEUTRAL 800 /\
  commands (log (snd (walk calm 1 500 ready))) <>
    (pose_commands NEUTRAL 800 ++ [Sleep 0.5])
    ++ sequence_commands LEFT_LEG_STEP_SEQUENCE 500
    ++ (pose_commands NEUTRAL 800 ++ [Sleep 0.5]) /\
  last (commands (log (snd (walk calm 1 500 ready)))) (Sleep 0) = Sleep (settle 800).
Proof.
  split; [vm_compute; reflexivity|]. split; [vm_compute; reflexivity|].
  split; [|vm_compute; reflexivity].
  intros H. apply (f_equal (@length Command)) in H.
  vm_compute in H. discriminate.
Qed.

(** ** Dancing *)

Lemma phrase_cases (n : Z) :
  ((n mod 4 = 1)%Z /\ phrase n = HIP_SWAY_SEQUENCE) \/
  ((n mod 4 = 2)%Z /\ phrase n = HIP_CIRCLE_SEQUENCE) \/
  ((n mod 4 = 3)%Z /\ phrase n = HIP_LIFT_SEQUENCE) \/
  ((n mod 4 <> 1)%Z /\ (n mod 4 <> 2)%Z /\ (n mod 4 <> 3)%Z /\
   phrase n = DEEP_HIP_SEQUENCE).
Proof.
  unfold phrase.
  destruct (n mod 4)%Z as [|[[p|p|]|[p|p|]|]|p];
    try (right; right; right; repeat split; try discriminate; reflexivity).
  - right; right; left. now split.
  - right; left. now split.
  - left. now split.
Qed.

Lemma phrase_in (n : Z) :
  In (phrase n)
     [LEFT_LEG_STEP_SEQUENCE; RIGHT_LEG_STEP_SEQUENCE;
      HIP_SWAY_SEQUENCE; HIP_CIRCLE_SEQUENCE;
      HIP_LIFT_SEQUENCE; DEEP_HIP_SEQUENCE].
Proof.
  destruct (phrase_cases n) as [[_ E]|[[_ E]|[[_ E]|(_ & _ & _ & E)]]];
    rewrite E; simpl; auto 10.
Qed.

Lemma phrase_nonempty (n : Z) : phrase n <> [].
Proof.
  destruct (phrase_cases n) as [[_ E]|[[_ E]|[[_ E]|(_ & _ & _ & E)]]];
    rewrite E; discriminate.
Qed.

(** The round robin: phrases 1, 2, 3, 4 are Hip Sway, Hip Circle, Hip
    Lift, Deep Hip, and the phrase played depends on its index modulo 4
    only. *)
Lemma phrase_round_robin :
  phrase 1 = HIP_SWAY_SEQUENCE /\
  phrase 2 = HIP_CIRCLE_SEQUENCE /\
  phrase 3 = HIP_LIFT_SEQUENCE /\
  phrase 4 = DEEP_HIP_SEQUENCE /\
  (forall n, phrase (n + 4) = phrase n) /\
  (forall n m, (n mod 4 = m mod 4)%Z -> phrase n = phrase m).
Proof.
  repeat split; try reflexivity.
  - intros n. unfold phrase.
    replace (n + 4)%Z with (n + 1 * 4)%Z by lia.
    now rewrite Z.mod_add by lia.
  - intros n m H. unfold phrase. now rewrite H.
Qed.

Lemma dance_phrase_run (env : Env) (sequence_count t_ms : Z) (w : World) :
  (-50 <= t_ms <= 9000000000000)%Z -> quiet_from env (tick w) -> initialized w ->
  exists w',
    dance_phrase env sequence_count t_ms w = (Returned tt, w') /\
    commands (log w') =
      commands (log w) ++ sequence_commands (phrase sequence_count) t_ms /\
    SERVOS w' = SERVOS w /\
    (tick w <= tick w')%nat /\
    (causal env -> clock w + settle t_ms <= clock w').
Proof.
  intros Ht Hq Hi.
  assert (E : exists move,
    dance_phrase env sequence_count t_ms =
      (print (MsgDanceMove move sequence_count) ;;
       for_each (phrase sequence_count)
                (fun keyframe => set_pose env keyframe t_ms))).
  { unfold dance_phrase.
    destruct (phrase_cases sequence_count)
      as [[M E]|[[M E]|[[M E]|(M1 & M2 & M3 & E)]]]; rewrite E.
    - rewrite M. now exists HipSway.
    - rewrite M. now exists HipCircle.
    - rewrite M. now exists HipLifts.
    - apply Z.eqb_neq in M1, M2, M3. rewrite M1, M2, M3. now exists DeepHips. }
  destruct E as (move & ->).
  run (print_run _ w).
  set (w0 := emit _ w).
  destruct (sequence_run env t_ms Ht (phrase sequence_count) w0) as
    (w' & R & C & Sv & T & _ & K).
  { exact Hq. }
  { apply (choreography_registered w0 Hi). apply phrase_in. }
  exists w'. split; [exact R|]. split; [|split; [|split]].
  - rewrite C. unfold w0. now rewrite commands_emit_print.
  - exact Sv.
  - exact T.
  - intros Hc. apply (K Hc). apply phrase_nonempty.
Qed.

Lemma phrases_from_succ (count : Z) (n : nat) :
  phrases_from count (S n) = (count + 1)%Z :: phrases_from (count + 1) n.
Proof.
  unfold phrases_from. cbn [seq map]. f_equal.
  rewrite <- seq_shift, map_map. apply map_ext. intros i. lia.
Qed.

(** [dance] is its opening, its loop and its closing. *)
Lemma dance_decomposes (env : Env) (fuel : nat) (duration_sec : Q) (t_ms : Z)
    (w : World) :
  dance env fuel duration_sec t_ms w =
    (dance_opening env duration_sec ;;
     start_time <- time_time ;;
     _ <- dance_loop env fuel duration_sec t_ms start_time 0%Z ;;
     dance_closing env) w.
Proof.
  unfold dance, dance_opening, dance_closing, bind, print, time_time.
  destruct (set_pose env NEUTRAL 800 _) as [[[]|e|] w1]; try reflexivity.
  destruct (time_sleep env 0.5 w1) as [[[]|e|] w2]; reflexivity.
Qed.

(** The loop of [dance] as a trace: whenever it ends, it has played [n]
    whole phrases, numbered from the count it started at; the time was not
    up when it began any of them (the test of the [while]); and the time
    is up in the state it ends in. *)
Lemma dance_loop_trace (env : Env) (duration_sec : Q) (t_ms : Z) (start_time : Q) :
  forall (fuel : nat) (sequence_count : Z) (w : World) (k : Z) (w' : World),
    dance_loop env fuel duration_sec t_ms start_time sequence_count w
      = (Returned k, w') ->
    exists n : nat,
      k = (sequence_count + Z.of_nat n)%Z /\
      for_each (phrases_from sequence_count n)
               (fun c => dance_phrase env c t_ms) w = (Returned tt, w') /\
      (forall i, (i < n)%nat ->
         exists wi,
           for_each (phrases_from sequence_count i)
                    (fun c => dance_phrase env c t_ms) w = (Returned tt, wi) /\
           clock wi - start_time < duration_sec) /\
      duration_sec <= clock w' - start_time.
Proof.
  induction fuel as [|fuel IH]; intros count w k w' H.
  - discriminate.
  - cbn [dance_loop] in H. rewrite bind_time_time in H.
    destruct (Qltb (clock w - start_time) duration_sec) eqn:Hlt.
    + apply bind_inv_returned in H. destruct H as ([] & w1 & R1 & H).
      rewrite bind_time_time in H.
      assert (B0 : exists wi,
                for_each (phrases_from count 0)
                         (fun c => dance_phrase env c t_ms) w = (Returned tt, wi) /\
                clock wi - start_time < duration_sec).
      { exists w. split; [reflexivity | now apply Qltb_lt]. }
      destruct (Qle_bool duration_sec (clock w1 - start_time)) eqn:Hge.
      * inversion H; subst. exists 1%nat. split; [lia|]. split; [|split].
        -- rewrite phrases_from_succ. cbn [for_each]. now run R1.
        -- intros i Hi. assert (i = 0)%nat by lia. now subst i.
        -- now apply Qle_bool_iff.
      * destruct (IH (count + 1)%Z w1 k w' H) as (n & Hk & F & B & Hd).
        exists (S n). split; [lia|]. split; [|split].
        -- rewrite phrases_from_succ. cbn [for_each]. now run R1.
        -- intros [|i] Hi; [exact B0|].
           destruct (B i ltac:(lia)) as (wi & Fi & Ci).
           exists wi. split; [|exact Ci].
           rewrite phrases_from_succ. cbn [for_each]. now run R1.
        -- exact Hd.
    + inversion H; subst. exists 0%nat. split; [lia|]. split; [reflexivity|].
      split; [intros i Hi; lia | now apply Qltb_ge].
Qed.

(** What whole phrases send. *)
Lemma phrases_run (env : Env) (t_ms : Z) :
  uninterrupted env -> (-50 <= t_ms <= 9000000000000)%Z ->
  forall (n : nat) (sequence_count : Z) (w w' : World),
    initialized w ->
    for_each (phrases_from sequence_count n)
             (fun c => dance_phrase env c t_ms) w = (Returned tt, w') ->
    commands (log w') =
      commands (log w)
      ++ flat_map (fun i => sequence_commands (phrase i) t_ms)
                  (phrases_from sequence_count n) /\
    SERVOS w' = SERVOS w.
Proof.
  intros Hu Ht. induction n as [|n IH]; intros count w w' Hi H.
  - inversion H; subst. simpl. now rewrite app_nil_r.
  - rewrite phrases_from_succ in H |- *. cbn [for_each] in H.
    destruct (dance_phrase_run env (count + 1) t_ms w Ht
                (uninterrupted_quiet env _ Hu) Hi) as (w1 & R1 & C1 & S1 & _).
    run R1 in H.
    destruct (IH (count + 1)%Z w1 w') as (C & Sv).
    { apply (initialized_same_servos w w1 S1 Hi). }
    { exact H. }
    split; [|congruence].
    rewrite C, C1. simpl. now rewrite <- app_assoc.
Qed.

(** When time passes as the waits say, the loop ends. *)
Lemma dance_loop_terminates (env : Env) (duration_sec : Q) (t_ms : Z) (start_time : Q) :
  uninterrupted env -> causal env -> (-50 < t_ms <= 9000000000000)%Z ->
  forall (f : nat) (sequence_count : Z) (w : World),
    initialized w ->
    duration_sec - (clock w - start_time) <= inject_Z (Z.of_nat f) * settle t_ms ->
    exists k w',
      dance_loop env (S f) duration_sec t_ms start_time sequence_count w
        = (Returned k, w').
Proof.
  intros Hu Hc Ht. induction f as [|f IH]; intros count w Hi Hb.
  - cbn [dance_loop]. rewrite bind_time_time.
    assert (E : Qltb (clock w - start_time) duration_sec = false).
    { apply Qltb_ge. change (inject_Z (Z.of_nat 0)) with 0 in Hb. lra. }
    rewrite E. now exists count, w.
  - cbn [dance_loop]. rewrite bind_time_time.
    destruct (Qltb (clock w - start_time) duration_sec) eqn:Hlt;
      [|now exists count, w].
    destruct (dance_phrase_run env (count + 1) t_ms w ltac:(lia)
                (uninterrupted_quiet env _ Hu) Hi) as (w1 & R1 & _ & S1 & _ & K1).
    run R1.
    rewrite bind_time_time.
    destruct (Qle_bool duration_sec (clock w1 - start_time)) eqn:Hge;
      [now exists (count + 1)%Z, w1|].
    apply IH.
    + apply (initialized_same_servos w w1 S1 Hi).
    + specialize (K1 Hc).
      rewrite Nat2Z.inj_succ in Hb. unfold Z.succ in Hb.
      rewrite inject_Z_plus in Hb. change (inject_Z 1) with 1 in Hb.
      lra.
Qed.

Lemma dance_fuel_enough (duration_sec : Q) (t_ms : Z) :
  (-50 < t_ms)%Z ->
  duration_sec <=
    inject_Z (Z.of_nat (Z.to_nat (Qceiling (duration_sec / settle t_ms))))
    * settle t_ms.
Proof.
  intros Ht. pose proof (settle_pos t_ms Ht) as Hs.
  set (c := Qceiling (duration_sec / settle t_ms)).
  assert (H1 : duration_sec / settle t_ms <= inject_Z (Z.of_nat (Z.to_nat c))).
  { eapply Qle_trans; [apply Qle_ceiling|]. fold c.
    rewrite <- Zle_Qle. lia. }
  assert (H2 : duration_sec == duration_sec / settle t_ms * settle t_ms).
  { field. intros E. rewrite E in Hs. now apply Qlt_irrefl in Hs. }
  rewrite H2 at 1. apply Qmult_le_compat_r; [exact H1 | now apply Qlt_le_weak].
Qed.

Lemma dance_opening_run (env : Env) (duration_sec : Q) (w : World) :
  quiet_from env (tick w) -> initialized w ->
  exists w_start,
    dance_opening env duration_sec w = (Returned tt, w_start) /\
    initialized w_start /\
    commands (log w_start) =
      commands (log w) ++ pose_commands NEUTRAL 800 ++ [Sleep 0.5] /\
    (tick w <= tick w_start)%nat.
Proof.
  intros Hq Hi. unfold dance_opening.
  run (print_run MsgMovingToNeutral w).
  set (w0 := emit _ w).
  destruct (neutral_settle_run env w0 Hq Hi)
    as (wa & w1 & Ra & R1 & C1 & S1 & T1 & _).
  run Ra. run R1. rewrite print_run.
  eexists. split; [reflexivity|]. split; [|split].
  - apply (initialized_same_servos w _); [exact S1 | exact Hi].
  - rewrite commands_emit_print, C1. unfold w0.
    now rewrite commands_emit_print.
  - exact T1.
Qed.

Lemma dance_closing_run (env : Env) (w : World) :
  quiet_from env (tick w) -> initialized w ->
  exists w',
    dance_closing env w = (Returned tt, w') /\
    commands (log w') = commands (log w) ++ pose_commands NEUTRAL 800.
Proof.
  intros Hq Hi. unfold dance_closing.
  run (print_run MsgReturning w).
  set (w4 := emit _ w).
  destruct (set_pose_run env NEUTRAL 800 w4 Hq ltac:(lia))
    as (w5 & R5 & _ & _ & _ & C5 & _).
  run R5. rewrite print_run.
  eexists. split; [reflexivity|].
  rewrite commands_emit_print.
  rewrite C5 by (now apply choreography_registered).
  unfold w4. now rewrite commands_emit_print.
Qed.

(** A run of [dance] that returns, cut at the entry and at the exit of its
    loop. *)
Lemma dance_shape (env : Env) (fuel : nat) (duration_sec : Q) (t_ms : Z)
    (w w' : World) :
  uninterrupted env -> (-50 <= t_ms <= 9000000000000)%Z -> initialized w ->
  dance env fuel duration_sec t_ms w = (Returned tt, w') ->
  exists (w_start w_exit : World) (n : nat),
    dance_opening env duration_sec w = (Returned tt, w_start) /\
    dance_loop env fuel duration_sec t_ms (clock w_start) 0 w_start
      = (Returned (Z.of_nat n), w_exit) /\
    dance_closing env w_exit = (Returned tt, w') /\
    for_each (phrases_from 0 n) (fun c => dance_phrase env c t_ms) w_start
      = (Returned tt, w_exit) /\
    (forall i, (i < n)%nat ->
       exists wi,
         for_each (phrases_from 0 i) (fun c => dance_phrase env c t_ms) w_start
           = (Returned tt, wi) /\
         clock wi - clock w_start < duration_sec) /\
    duration_sec <= clock w_exit - clock w_start /\
    (0 < duration_sec -> (0 < n)%nat) /\
    (duration_sec <= 0 -> n = 0%nat) /\
    commands (log w_start) =
      commands (log w) ++ pose_commands NEUTRAL 800 ++ [Sleep 0.5] /\
    commands (log w_exit) =
      commands (log w_start)
      ++ flat_map (fun i => sequence_commands (phrase i) t_ms) (phrases_from 0 n) /\
    commands (log w') = commands (log w_exit) ++ pose_commands NEUTRAL 800.
Proof.
  intros Hu Ht Hi H.
  assert (Hq : forall t, quiet_from env t)
    by (intros t; now apply uninterrupted_quiet).
  rewrite dance_decomposes in H.
  destruct (dance_opening_run env duration_sec w (Hq _) Hi)
    as (ws & Ro & Is & Cs & _).
  run Ro in H. rewrite bind_time_time in H.
  apply bind_inv_returned in H. destruct H as (k & we & RL & H).
  destruct (dance_loop_trace env duration_sec t_ms (clock ws) fuel 0%Z ws k we RL)
    as (n & Hk & F & B & Hd).
  destruct (phrases_run env t_ms Hu Ht n 0%Z ws we Is F) as (Ce & Se).
  destruct (dance_closing_run env we (Hq _)) as (w5 & Rc & Cc).
  { apply (initialized_same_servos ws we Se Is). }
  assert (E : w5 = w') by congruence. subst w5.
  exists ws, we, n.
  split; [exact Ro|]. split; [rewrite RL; do 2 f_equal; lia|].
  split; [exact Rc|]. split; [exact F|]. split; [exact B|].
  split; [exact Hd|]. split; [|split].
  - intros Hp. destruct n as [|n]; [|lia].
    inversion F; subst we. lra.
  - intros Hn. destruct n as [|n]; [reflexivity|].
    destruct (B 0%nat ltac:(lia)) as (wi & Fi & Ci).
    inversion Fi; subst wi. lra.
  - split; [exact Cs|]. split; [exact Ce | exact Cc].
Qed.

Lemma dance_terminates (env : Env) (duration_sec : Q) (t_ms : Z) (w : World) :
  uninterrupted env -> causal env -> (-50 < t_ms <= 9000000000000)%Z ->
  initialized w ->
  exists w',
    dance env (dance_fuel duration_sec t_ms) duration_sec t_ms w = (Returned tt, w').
Proof.
  intros Hu Hc Ht Hi.
  assert (Hq : forall t, quiet_from env t)
    by (intros t; now apply uninterrupted_quiet).
  rewrite dance_decomposes.
  destruct (dance_opening_run env duration_sec w (Hq _) Hi)
    as (ws & Ro & Is & _).
  run Ro. rewrite bind_time_time.
  destruct (dance_loop_terminates env duration_sec t_ms (clock ws) Hu Hc Ht
              (Z.to_nat (Qceiling (duration_sec / settle t_ms))) 0%Z ws Is)
    as (k & we & RL).
  { pose proof (dance_fuel_enough duration_sec t_ms ltac:(lia)). lra. }
  unfold dance_fuel. run RL.
  destruct (dance_loop_trace env duration_sec t_ms (clock ws) _ 0%Z ws k we RL)
    as (n & _ & F & _).
  destruct (phrases_run env t_ms Hu ltac:(lia) n 0%Z ws we Is F) as (_ & Se).
  destruct (dance_closing_run env we (Hq _)) as (w' & Rc & _).
  { apply (initialized_same_servos ws we Se Is). }
  now exists w'.
Qed.

Lemma nth_phrases_from (count : Z) (n i : nat) :
  (i < n)%nat -> nth i (phrases_from count n) 0%Z = (count + Z.of_nat i + 1)%Z.
Proof.
  intros H. unfold phrases_from.
  set (f := fun j => (count + Z.of_nat j)%Z).
  transitivity (nth i (map f (seq 1 n)) (f O)).
  - apply nth_indep. now rewrite length_map, length_seq.
  - rewrite (map_nth f), seq_nth by exact H. unfold f. lia.
Qed.

(** C4.  With time passing as the waits say, no Ctrl-C, the six handles
    in place and a duration per keyframe above -50 ms and up to
    9 000 000 000 000 ms, [dance] returns; and every returning run, whatever
    [duration_sec] is, has sent [NEUTRAL] with the pause, then in full the
    phrases number 1, 2, ..., n, where n is at least 1 when [duration_sec]
    is positive and 0 otherwise, phrase number i being chosen by [i mod 4]
    alone (1 Hip Sway, 2 Hip Circle, 3 Hip Lift, 0 Deep Hip) and played
    keyframe by keyframe at [t_ms], then [NEUTRAL] again. *)
Theorem dance_cycles_phrases_round_robin :
  forall (env : Env) (duration_sec : Q) (t_ms : Z) (w : World),
    uninterrupted env -> causal env -> (-50 < t_ms <= 9000000000000)%Z ->
    initialized w ->
    (exists w',
       dance env (dance_fuel duration_sec t_ms) duration_sec t_ms w
         = (Returned tt, w')) /\
    (forall fuel w',
       dance env fuel duration_sec t_ms w = (Returned tt, w') ->
       exists n : nat,
         (0 < duration_sec -> (0 < n)%nat) /\
         (duration_sec <= 0 -> n = 0%nat) /\
         commands (log w') =
           commands (log w)
           ++ (pose_commands NEUTRAL 800 ++ [Sleep 0.5])
           ++ flat_map (fun i => sequence_commands (phrase i) t_ms)
                       (phrases_from 0 n)
           ++ pose_commands NEUTRAL 800 /\
         length (phrases_from 0 n) = n /\
         (forall i, (i < n)%nat ->
            nth i (phrases_from 0 n) 0%Z = (Z.of_nat i + 1)%Z)) /\
    phrase 1 = HIP_SWAY_SEQUENCE /\
    phrase 2 = HIP_CIRCLE_SEQUENCE /\
    phrase 3 = HIP_LIFT_SEQUENCE /\
    phrase 4 = DEEP_HIP_SEQUENCE /\
    (forall i, phrase (i + 4) = phrase i) /\
    (forall i j, (i mod 4 = j mod 4)%Z -> phrase i = phrase j).
Proof.
  intros env d t_ms w Hu Hc Ht Hi.
  split; [now apply dance_terminates|].
  split; [|exact phrase_round_robin].
  intros fuel w' H.
  destruct (dance_shape env fuel d t_ms w w' Hu ltac:(lia) Hi H)
    as (ws & we & n & _ & _ & _ & _ & _ & _ & Hpos & Hnone & Cs & Ce & Cf).
  exists n. split; [exact Hpos|]. split; [exact Hnone|]. split; [|split].
  - rewrite Cf, Ce, Cs. now rewrite <- !app_assoc.
  - unfold phrases_from. now rewrite length_map, length_seq.
  - intros i Hlt. rewrite nth_phrases_from by exact Hlt. lia.
Qed.

(** Two seconds at 400 ms per keyframe: the run returns, and it has
    played at least one phrase. *)
Lemma dance_cycles_phrases_round_robin_witness :
  uninterrupted calm /\ causal calm /\ (-50 < 400 <= 9000000000000)%Z /\
  initialized ready /\
  exists w',
    dance calm (dance_fuel 2 400) 2 400 ready = (Returned tt, w') /\
    exists n : nat,
      (0 < n)%nat /\
      commands (log w') =
        commands (log ready)
        ++ (pose_commands NEUTRAL 800 ++ [Sleep 0.5])
        ++ flat_map (fun i => sequence_commands (phrase i) 400) (phrases_from 0 n)
        ++ pose_commands NEUTRAL 800.
Proof.
  assert (Hu : uninterrupted calm) by (intros n; reflexivity).
  assert (Hc : causal calm) by (intros n; simpl; apply Qle_refl).
  split; [exact Hu|]. split; [exact Hc|]. split; [lia|]. split; [reflexivity|].
  destruct (dance_cycles_phrases_round_robin calm 2 400 ready Hu Hc
              ltac:(lia) eq_refl) as ((w' & R) & S & _).
  exists w'. split; [exact R|].
  destruct (S _ w' R) as (n & Hpos & _ & C & _).
  exists n. split; [apply Hpos; reflexivity | exact C].
Defined.

(** A run of two seconds at 400 ms per keyframe: Hip Sway ends after
    1.8 s, so Hip Circle is played too, in full. *)
Example dance_two_seconds :
  commands (log (snd (dance calm 10 2 400 ready))) =
    (pose_commands NEUTRAL 800 ++ [Sleep 0.5])
    ++ sequence_commands HIP_SWAY_SEQUENCE 400
    ++ sequence_commands HIP_CIRCLE_SEQUENCE 400
    ++ pose_commands NEUTRAL 800.
Proof. vm_compute. reflexivity. Qed.

(** C5.  [dance] is its opening, its loop and its closing; the loop reads
    the clock before a phrase and after a phrase, never inside one.  With
    time passing as the waits say, no Ctrl-C, the six handles in place and
    a duration per keyframe above -50 ms and up to 9 000 000 000 000 ms,
    [dance] returns; and in every returning run the opening takes the
    state [w] of the call to [w_start], where the loop starts with
    [start_time = clock w_start]; the loop leaves at [w_exit], which is
    the state reached from [w_start] by playing the phrases 1 to n in
    full, one after the other; the time was not yet up when any of these
    phrases began, and at least [duration_sec] has elapsed on the clock at
    [w_exit], whether or not a phrase was played (at least one is played
    when [duration_sec] is positive); the closing, which takes [w_exit] to
    the final state, sends [NEUTRAL] at 800 ms. *)
Theorem dance_checks_time_between_phrases :
  forall (env : Env) (duration_sec : Q) (t_ms : Z) (w : World),
    uninterrupted env -> causal env -> (-50 < t_ms <= 9000000000000)%Z ->
    initialized w ->
    (forall fuel w0,
       dance env fuel duration_sec t_ms w0 =
         (dance_opening env duration_sec ;;
          start_time <- time_time ;;
          _ <- dance_loop env fuel duration_sec t_ms start_time 0%Z ;;
          dance_closing env) w0) /\
    (exists w',
       dance env (dance_fuel duration_sec t_ms) duration_sec t_ms w
         = (Returned tt, w')) /\
    (forall fuel w',
       dance env fuel duration_sec t_ms w = (Returned tt, w') ->
       exists (w_start w_exit : World) (n : nat),
         dance_opening env duration_sec w = (Returned tt, w_start) /\
         dance_loop env fuel duration_sec t_ms (clock w_start) 0 w_start
           = (Returned (Z.of_nat n), w_exit) /\
         dance_closing env w_exit = (Returned tt, w') /\
         for_each (phrases_from 0 n) (fun c => dance_phrase env c t_ms) w_start
           = (Returned tt, w_exit) /\
         (forall i, (i < n)%nat ->
            exists wi,
              for_each (phrases_from 0 i) (fun c => dance_phrase env c t_ms)
                       w_start = (Returned tt, wi) /\
              clock wi - clock w_start < duration_sec) /\
         duration_sec <= clock w_exit - clock w_start /\
         (0 < duration_sec -> (0 < n)%nat) /\
         commands (log w_exit) =
           commands (log w_start)
           ++ flat_map (fun i => sequence_commands (phrase i) t_ms)
                       (phrases_from 0 n) /\
         commands (log w') = commands (log w_exit) ++ pose_commands NEUTRAL 800).
Proof.
  intros env d t_ms w Hu Hc Ht Hi.
  split; [intros fuel w0; apply dance_decomposes|].
  split; [now apply dance_terminates|].
  intros fuel w' H.
  destruct (dance_shape env fuel d t_ms w w' Hu ltac:(lia) Hi H)
    as (ws & we & n & Ro & RL & Rc & F & B & Hd & Hpos & _ & _ & Ce & Cf).
  exists ws, we, n. repeat split; assumption.
Qed.

(** Three seconds at 400 ms per keyframe: Hip Sway lasts 1.8 s, so that
    the run plays Hip Circle too and leaves the loop after 4.05 s. *)
Lemma dance_checks_time_between_phrases_witness :
  uninterrupted calm /\ causal calm /\ (-50 < 400 <= 9000000000000)%Z /\
  initialized ready /\
  exists w' w_start w_exit,
    dance calm (dance_fuel 3 400) 3 400 ready = (Returned tt, w') /\
    dance_opening calm 3 ready = (Returned tt, w_start) /\
    dance_closing calm w_exit = (Returned tt, w') /\
    3 <= clock w_exit - clock w_start.
Proof.
  assert (Hu : uninterrupted calm) by (intros n; reflexivity).
  assert (Hc : causal calm) by (intros n; simpl; apply Qle_refl).
  split; [exact Hu|]. split; [exact Hc|]. split; [lia|]. split; [reflexivity|].
  destruct (dance_checks_time_between_phrases calm 3 400 ready Hu Hc
              ltac:(lia) eq_refl) as (_ & (w' & R) & S).
  destruct (S _ w' R) as (ws & we & n & Ro & _ & Rc & _ & _ & Hd & _).
  exists w', ws, we. repeat split; assumption.
Defined.

Example dance_three_seconds :
  exists w_start w_exit,
    dance_opening calm 3 ready = (Returned tt, w_start) /\
    dance_loop calm 10 3 400 (clock w_start) 0 w_start = (Returned 2%Z, w_exit) /\
    clock w_exit - clock w_start == 4.05.
Proof. do 2 eexists. repeat split; vm_compute; reflexivity. Qed.

(** ** The registry is stable *)

Create HintDb servos.

Lemma keeps_servos_ret {A} (a : A) : keeps_servos (ret a).
Proof. intros w. reflexivity. Qed.

Lemma keeps_servos_bind {A B} (m : M A) (k : A -> M B) :
  keeps_servos m -> (forall a, keeps_servos (k a)) -> keeps_servos (bind m k).
Proof.
  intros Hm Hk w. unfold bind. specialize (Hm w).
  destruct (m w) as [[a|e|] w1]; simpl in *; try exact Hm.
  rewrite (Hk a w1). exact Hm.
Qed.

Lemma keeps_servos_try_except {A} (m : M A) (h : PyExn -> option (M A)) :
  keeps_servos m ->
  (forall e handler, h e = Some handler -> keeps_servos handler) ->
  keeps_servos (try_except m h).
Proof.
  intros Hm Hh w. unfold try_except. specialize (Hm w).
  destruct (m w) as [[a|e|] w1]; simpl in *; try exact Hm.
  destruct (h e) as [handler|] eqn:E; simpl; [|exact Hm].
  rewrite (Hh e handler E w1). exact Hm.
Qed.

Lemma keeps_servos_for_each {A} (l : list A) (body : A -> M unit) :
  (forall x, keeps_servos (body x)) -> keeps_servos (for_each l body).
Proof.
  intros Hb. induction l as [|x l IH]; simpl.
  - apply keeps_servos_ret.
  - apply keeps_servos_bind; [apply Hb | intros _; exact IH].
Qed.

Lemma keeps_servos_print (m : Msg) : keeps_servos (print m).
Proof. intros w. reflexivity. Qed.

Lemma keeps_servos_time_time : keeps_servos time_time.
Proof. intros w. reflexivity. Qed.

Lemma keeps_servos_time_sleep (env : Env) (secs : Q) :
  keeps_servos (time_sleep env secs).
Proof.
  intros w. unfold time_sleep.
  destruct (sleep_overflows secs); [reflexivity|].
  destruct (Qltb secs 0); [reflexivity|].
  destruct (sigint env (tick w)); reflexivity.
Qed.

Lemma keeps_servos_bus_call (env : Env) (ev : option BusFault -> Event) :
  keeps_servos (bus_call env ev).
Proof.
  intros w. unfold bus_call.
  destruct (sigint env (tick w)); [reflexivity|].
  destruct (bus_fault env (tick w)); reflexivity.
Qed.

#[local] Hint Resolve keeps_servos_ret keeps_servos_print keeps_servos_time_time
  keeps_servos_time_sleep keeps_servos_bus_call : servos.

Lemma keeps_servos_set_pose (env : Env) (pose : dict) (t_ms : Z) :
  keeps_servos (set_pose env pose t_ms).
Proof.
  unfold set_pose. apply keeps_servos_bind; [|auto with servos].
  apply keeps_servos_for_each. intros [sid angle]. unfold try_move.
  apply keeps_servos_try_except.
  - intros w. unfold servo_move.
    destruct (existsb (key_eqb sid) (SERVOS w)); [|reflexivity].
    apply keeps_servos_bus_call.
  - intros e handler H. unfold except_Exception in H.
    destruct (is_Exception e); inversion H; subst. auto with servos.
Qed.

#[local] Hint Resolve keeps_servos_set_pose : servos.

Lemma keeps_servos_sequence (env : Env) (sequence : list dict) (t_ms : Z) :
  keeps_servos (for_each sequence (fun keyframe => set_pose env keyframe t_ms)).
Proof. apply keeps_servos_for_each. auto with servos. Qed.

Lemma keeps_servos_dance_phrase (env : Env) (sequence_count t_ms : Z) :
  keeps_servos (dance_phrase env sequence_count t_ms).
Proof.
  unfold dance_phrase.
  repeat match goal with |- context [if ?b then _ else _] => destruct b end;
    (apply keeps_servos_bind;
     [auto with servos | intros _; apply keeps_servos_sequence]).
Qed.

Lemma keeps_servos_dance_loop (env : Env) (duration_sec : Q) (t_ms : Z)
    (start_time : Q) :
  forall (fuel : nat) (sequence_count : Z),
    keeps_servos (dance_loop env fuel duration_sec t_ms start_time sequence_count).
Proof.
  induction fuel as [|fuel IH]; intros count; cbn [dance_loop].
  - intros w. reflexivity.
  - apply keeps_servos_bind; [auto with servos|]. intros now.
    destruct (Qltb (now - start_time) duration_sec); [|auto with servos].
    apply keeps_servos_bind; [apply keeps_servos_dance_phrase|]. intros _.
    apply keeps_servos_bind; [auto with servos|]. intros now'.
    destruct (Qle_bool duration_sec (now' - start_time));
      [auto with servos | apply IH].
Qed.

#[local] Hint Resolve keeps_servos_dance_loop : servos.

Lemma keeps_servos_dance (env : Env) (fuel : nat) (duration_sec : Q) (t_ms : Z) :
  keeps_servos (dance env fuel duration_sec t_ms).
Proof.
  unfold dance.
  do 8 (apply keeps_servos_bind; [auto with servos | intros ?]).
  auto with servos.
Qed.

(** ** The session *)


Lemma initialize_servos_initialized (env : Env) (w w' : World) :
  initialize_servos env w = (Returned tt, w') -> initialized w'.
Proof.
  unfold initialize_servos. intros H.
  do 6 (apply bind_inv_returned in H; destruct H as (? & ? & _ & H)).
  apply bind_inv_returned in H. destruct H as (? & ws & Hs & H).
  inversion Hs; subst ws. inversion H. reflexivity.
Qed.

Lemma main_after_startup (env : Env) (fuel : nat) (w0 : World) :
  fst (startup env w0) = Returned tt ->
  initialized (started env w0) /\
  main env fuel w0 =
    try_finally (dance env fuel 15 400 ;; print MsgBannerDancingComplete)
                (return_to_neutral env) (started env w0).
Proof.
  unfold started. destruct (startup env w0) as [r ws] eqn:E. simpl.
  intros ->. unfold startup in E.
  apply bind_inv_returned in E. destruct E as ([] & w1 & H1 & E).
  apply bind_inv_returned in E. destruct E as ([] & w2 & H2 & E).
  apply bind_inv_returned in E. destruct E as ([] & w3 & H3 & E).
  apply bind_inv_returned in E. destruct E as ([] & w4 & H4 & E).
  split; [now apply (initialize_servos_initialized env w4 ws)|].
  unfold main. run H1.
  assert (A : (print MsgConnecting ;; LX16A_initialize env ;;
               print MsgConnected ;; ret true) w1 = (Returned true, w4)).
  { run H2. run H3.
    now run H4. }
  run (try_except_returned _ _ _ _ _ A).
  cbn [negb].
  assert (B : (initialize_servos env ;; ret true) w4 = (Returned true, ws))
    by (now run E).
  run (try_except_returned _ _ _ _ _ B).
  reflexivity.
Qed.

(** ** Ctrl-C inside a pose *)


Lemma quiet_from_between (env : Env) (a b : nat) :
  quiet_from env a -> quiet_between env a b.
Proof. intros H n Hn. apply H. lia. Qed.

(** The loop of [set_pose] when Ctrl-C arrives during the command of the
    servo that follows [before]: the servos of [before] have been
    commanded, the others have not. *)
Lemma dispatch_interrupted (env : Env) (t_ms : Z) (sid : Key) (angle : Q)
    (after : dict) :
  forall (before : dict) (w : World),
    registered w (before ++ (sid, angle) :: after) ->
    quiet_between env (tick w) (tick w + length before) ->
    sigint env (tick w + length before) = true ->
    exists w',
      for_each (before ++ (sid, angle) :: after)
               (fun item => try_move env item t_ms) w
        = (Raised KeyboardInterrupt, w') /\
      commands (log w') =
        commands (log w)
        ++ map (fun item => Move (fst item) (clampAngle (snd item)) t_ms) before /\
      SERVOS w' = SERVOS w /\
      tick w' = S (tick w + length before).
Proof.
  induction before as [|[sid0 angle0] before IH]; intros w Hr Hq Hi.
  - apply registered_cons in Hr. destruct Hr as [Hs _].
    simpl in Hi. rewrite Nat.add_0_r in Hi.
    cbn [app for_each]. unfold bind, try_move, try_except, servo_move, bus_call.
    rewrite Hs, Hi. simpl. eexists. split; [reflexivity|].
    simpl. rewrite commands_app. simpl. rewrite !app_nil_r.
    repeat split. lia.
  - cbn [app] in Hr. pose proof Hr as Hr0.
    apply registered_cons in Hr. destruct Hr as [Hs Hr].
    cbn [app for_each]. unfold bind at 1.
    rewrite try_move_run by (apply Hq; simpl; lia).
    rewrite Hs. cbv zeta.
    set (w1 := emit (EvMove sid0 (clampAngle angle0) t_ms (bus_fault env (tick w)))
                    (spend (lag env (tick w)) w)).
    assert (C1 : commands (log w1) =
                 commands (log w) ++ [Move sid0 (clampAngle angle0) t_ms]).
    { unfold w1. simpl. now rewrite commands_app. }
    assert (Hq1 : forall w2, tick w2 = S (tick w) ->
                  quiet_between env (tick w2) (tick w2 + length before)).
    { intros w2 T2 n Hn. apply Hq. simpl. lia. }
    assert (Hi1 : forall w2, tick w2 = S (tick w) ->
                  sigint env (tick w2 + length before) = true).
    { intros w2 T2. rewrite <- Hi. f_equal. simpl. lia. }
    destruct (bus_fault env (tick w)) as [f|] eqn:Hf.
    + set (w2 := emit (EvPrint (MsgCouldNotMove sid0 (BusError f))) w1).
      destruct (IH w2) as (w' & R & C & Sv & T).
      * apply (registered_same_servos w w2); [reflexivity | exact Hr].
      * now apply Hq1.
      * now apply Hi1.
      * exists w'. split; [exact R|]. split; [|split; [exact Sv|]].
        -- rewrite C. unfold w2.
           rewrite commands_emit_print, C1. simpl. now rewrite <- app_assoc.
        -- rewrite T. simpl. lia.
    + destruct (IH w1) as (w' & R & C & Sv & T).
      * apply (registered_same_servos w w1); [reflexivity | exact Hr].
      * now apply Hq1.
      * now apply Hi1.
      * exists w'. split; [exact R|]. split; [|split; [exact Sv|]].
        -- rewrite C, C1. simpl. now rewrite <- app_assoc.
        -- rewrite T. simpl. lia.
Qed.












(** ** Composition meets the pose player *)

Lemma dict_get_In (d : dict) (id : Key) (v : Q) :
  dict_get d id = Some v -> In (id, v) d.
Proof.
  induction d as [|[k' v'] d IH]; simpl; [discriminate|].
  destruct (key_eqb id k') eqn:E.
  - apply key_eqb_eq in E. subst k'. intros H. inversion H. now left.
  - intros H. right. now apply IH.
Qed.

(** C1 (as the code has it).  For every base [b] and every delta dict [d],
    [pose_from_neutral] returns a pose in which every id of [d] present in
    [b] has the angle [b[id] + d[id]], not clamped, and every other id of
    [b] keeps [b[id]]; the keys are those of [b].  The clamp comes when the
    pose is played: for a duration from -50 ms to 9 000 000 000 000 ms and
    without Ctrl-C, [set_pose] returns, and the command that it sends for
    such an id carries [clampAngle (b[id] + d[id])]. *)
Theorem pose_from_neutral_adds_deltas_unclamped :
  forall (b d : dict) (kw : kwargs),
    unique_keys d = true ->
    exists pose,
      pose_from_neutral b (Some d) kw = Returned pose /\
      dict_keys pose = dict_keys b /\
      (forall id dl bv,
         dict_get d id = Some dl -> dict_get b id = Some bv ->
         dict_get pose id = Some (bv + dl)) /\
      (forall id, dict_get d id = None -> dict_get pose id = dict_get b id) /\
      (forall env t_ms w,
         uninterrupted env -> (-50 <= t_ms <= 9000000000000)%Z ->
         registered w pose ->
         exists w',
           set_pose env pose t_ms w = (Returned tt, w') /\
           commands (log w') = commands (log w) ++ pose_commands pose t_ms /\
           forall id dl bv,
             dict_get d id = Some dl -> dict_get b id = Some bv ->
             In (Move id (clampAngle (bv + dl)) t_ms) (commands (log w'))).
Proof.
  intros b d kw Hu. unfold pose_from_neutral.
  destruct (apply_deltas_spec b d b eq_refl) as (pose & R & K & U & V).
  exists pose. split; [exact R|]. split; [exact K|].
  split; [now apply V|]. split; [exact U|].
  intros env t_ms w He Ht Hr.
  destruct (set_pose_run env pose t_ms w (uninterrupted_quiet env _ He) Ht)
    as (w' & Rs & _ & _ & _ & C & _).
  exists w'. split; [exact Rs|]. split; [now apply C|].
  intros id dl bv Hd Hb. rewrite (C Hr). apply in_or_app. right.
  unfold pose_commands. apply in_or_app. left.
  apply (in_map (fun item => Move (fst item) (clampAngle (snd item)) t_ms)
                pose (id, bv + dl)).
  apply dict_get_In. now apply (V Hu id dl bv).
Qed.

Lemma pose_from_neutral_adds_deltas_unclamped_witness :
  unique_keys [(LEFT_HIP, 100); (KInt 99, 10)] = true /\
  exists pose,
    pose_from_neutral NEUTRAL (Some [(LEFT_HIP, 100); (KInt 99, 10)]) []
      = Returned pose /\
    dict_get pose LEFT_HIP = Some (215.3 + 100) /\
    dict_get pose LEFT_KNEE = Some 123.6.
Proof.
  split; [reflexivity|].
  destruct (pose_from_neutral_adds_deltas_unclamped NEUTRAL
              [(LEFT_HIP, 100); (KInt 99, 10)] [] eq_refl)
    as (pose & R & _ & V & U & _).
  exists pose. split; [exact R|]. split.
  - apply (V LEFT_HIP 100 215.3); reflexivity.
  - rewrite (U LEFT_KNEE); reflexivity.
Defined.

(** C1, refuted as stated: with the delta [{LEFT_HIP: 100}] the pose holds
    [215.3 + 100 = 315.3] for the left hip, while the clamp of that sum is
    [240]. *)
Lemma pose_from_neutral_does_not_clamp :
  pose_from_neutral NEUTRAL (Some [(LEFT_HIP, 100)]) [] =
    Returned [ (LEFT_HIP, 215.3 + 100); (LEFT_KNEE, 123.6); (LEFT_ANKLE, 123.1);
               (RIGHT_HIP, 234.0); (RIGHT_KNEE, 107.3); (RIGHT_ANKLE, 177.4) ] /\
  dict_get NEUTRAL LEFT_HIP = Some 215.3 /\
  215.3 + 100 == 315.3 /\
  clampAngle (215.3 + 100) == 240 /\
  ~ 215.3 + 100 == clampAngle (215.3 + 100).
Proof.
  split; [reflexivity|]. split; [reflexivity|]. split; [reflexivity|].
  split; [reflexivity|]. vm_compute. discriminate.
Qed.

(* ====================================================================== *)
(** * Further properties of the code *)
(* ====================================================================== *)

(** ** No command leaves the range of the servo *)

Create HintDb safe.

Lemma safe_log_snoc (l : list Event) (ev : Event) :
  safe_log l -> safe_event ev -> safe_log (l ++ [ev]).
Proof.
  intros Hl He. apply Forall_app. split; [exact Hl|]. now constructor.
Qed.

Lemma keeps_safe_ret {A} (a : A) : keeps_safe (ret a).
Proof. intros w H. exact H. Qed.

Lemma keeps_safe_bind {A B} (m : M A) (k : A -> M B) :
  keeps_safe m -> (forall a, keeps_safe (k a)) -> keeps_safe (bind m k).
Proof.
  intros Hm Hk w H. unfold bind. specialize (Hm w H).
  destruct (m w) as [[a|e|] w1]; simpl in *; try exact Hm.
  now apply Hk.
Qed.

Lemma keeps_safe_try_except {A} (m : M A) (h : PyExn -> option (M A)) :
  keeps_safe m ->
  (forall e handler, h e = Some handler -> keeps_safe handler) ->
  keeps_safe (try_except m h).
Proof.
  intros Hm Hh w H. unfold try_except. specialize (Hm w H).
  destruct (m w) as [[a|e|] w1]; simpl in *; try exact Hm.
  destruct (h e) as [handler|] eqn:E; simpl; [|exact Hm].
  now apply (Hh e handler E).
Qed.

Lemma keeps_safe_try_finally {A} (m : M A) (f : M unit) :
  keeps_safe m -> keeps_safe f -> keeps_safe (try_finally m f).
Proof.
  intros Hm Hf w H. unfold try_finally. specialize (Hm w H).
  destruct (m w) as [[a|e|] w1]; simpl in *; try exact Hm;
    specialize (Hf w1 Hm); destruct (f w1) as [[[]|e'|] w2]; exact Hf.
Qed.

Lemma keeps_safe_for_each {A} (l : list A) (body : A -> M unit) :
  (forall x, keeps_safe (body x)) -> keeps_safe (for_each l body).
Proof.
  intros Hb. induction l as [|x l IH]; simpl.
  - apply keeps_safe_ret.
  - apply keeps_safe_bind; [apply Hb | intros _; exact IH].
Qed.

Lemma keeps_safe_print (m : Msg) : keeps_safe (print m).
Proof. intros w H. simpl. now apply safe_log_snoc. Qed.

Lemma keeps_safe_time_time : keeps_safe time_time.
Proof. intros w H. exact H. Qed.

Lemma keeps_safe_time_sleep (env : Env) (secs : Q) :
  keeps_safe (time_sleep env secs).
Proof.
  intros w H. unfold time_sleep.
  destruct (sleep_overflows secs); [exact H|].
  destruct (Qltb secs 0); [exact H|].
  destruct (sigint env (tick w)); simpl; now apply safe_log_snoc.
Qed.

Lemma keeps_safe_bus_call (env : Env) (ev : option BusFault -> Event) :
  (forall f, safe_event (ev f)) -> keeps_safe (bus_call env ev).
Proof.
  intros He w H. unfold bus_call.
  destruct (sigint env (tick w)); simpl; [now apply safe_log_snoc|].
  destruct (bus_fault env (tick w)); simpl; now apply safe_log_snoc.
Qed.

#[local] Hint Resolve keeps_safe_ret keeps_safe_print keeps_safe_time_time
  keeps_safe_time_sleep : safe.

Lemma keeps_safe_set_pose (env : Env) (pose : dict) (t_ms : Z) :
  keeps_safe (set_pose env pose t_ms).
Proof.
  unfold set_pose. apply keeps_safe_bind; [|auto with safe].
  apply keeps_safe_for_each. intros [sid angle]. unfold try_move.
  apply keeps_safe_try_except.
  - intros w H. unfold servo_move.
    destruct (existsb (key_eqb sid) (SERVOS w)); [|exact H].
    apply keeps_safe_bus_call; [|exact H].
    intros f. simpl. apply clampAngle_range.
  - intros e handler H. unfold except_Exception in H.
    destruct (is_Exception e); inversion H; subst. auto with safe.
Qed.

#[local] Hint Resolve keeps_safe_set_pose : safe.

Lemma keeps_safe_sequence (env : Env) (sequence : list dict) (t_ms : Z) :
  keeps_safe (for_each sequence (fun keyframe => set_pose env keyframe t_ms)).
Proof. apply keeps_safe_for_each. auto with safe. Qed.

Lemma keeps_safe_walk (env : Env) (steps t_ms : Z) :
  keeps_safe (walk env steps t_ms).
Proof.
  unfold walk.
  do 4 (apply keeps_safe_bind; [auto with safe | intros ?]).
  apply keeps_safe_bind.
  - apply keeps_safe_for_each. intros step_num.
    destruct (step_num mod 2 =? 0)%Z;
      (apply keeps_safe_bind;
       [auto with safe | intros _; apply keeps_safe_sequence]).
  - intros _. do 2 (apply keeps_safe_bind; [auto with safe | intros ?]).
    auto with safe.
Qed.

Lemma keeps_safe_dance_phrase (env : Env) (sequence_count t_ms : Z) :
  keeps_safe (dance_phrase env sequence_count t_ms).
Proof.
  unfold dance_phrase.
  repeat match goal with |- context [if ?b then _ else _] => destruct b end;
    (apply keeps_safe_bind;
     [auto with safe | intros _; apply keeps_safe_sequence]).
Qed.

Lemma keeps_safe_dance_loop (env : Env) (duration_sec : Q) (t_ms : Z)
    (start_time : Q) :
  forall (fuel : nat) (sequence_count : Z),
    keeps_safe (dance_loop env fuel duration_sec t_ms start_time sequence_count).
Proof.
  induction fuel as [|fuel IH]; intros count; cbn [dance_loop].
  - intros w H. exact H.
  - apply keeps_safe_bind; [auto with safe|]. intros now.
    destruct (Qltb (now - start_time) duration_sec); [|auto with safe].
    apply keeps_safe_bind; [apply keeps_safe_dance_phrase|]. intros _.
    apply keeps_safe_bind; [auto with safe|]. intros now'.
    destruct (Qle_bool duration_sec (now' - start_time));
      [auto with safe | apply IH].
Qed.

#[local] Hint Resolve keeps_safe_dance_loop : safe.

Lemma keeps_safe_dance (env : Env) (fuel : nat) (duration_sec : Q) (t_ms : Z) :
  keeps_safe (dance env fuel duration_sec t_ms).
Proof.
  unfold dance.
  do 8 (apply keeps_safe_bind; [auto with safe | intros ?]).
  auto with safe.
Qed.

#[local] Hint Resolve keeps_safe_dance : safe.

Lemma keeps_safe_probe (env : Env) (sid : Key) : keeps_safe (LX16A env sid).
Proof. apply keeps_safe_bus_call. intros f. exact I. Qed.

Lemma keeps_safe_initialize_servos (env : Env) :
  keeps_safe (initialize_servos env).
Proof.
  unfold initialize_servos.
  do 6 (apply keeps_safe_bind; [apply keeps_safe_probe | intros ?]).
  apply keeps_safe_bind; [|auto with safe]. intros w H. exact H.
Qed.

Lemma keeps_safe_return_to_neutral (env : Env) :
  keeps_safe (return_to_neutral env).
Proof.
  unfold return_to_neutral. apply keeps_safe_bind; [auto with safe|]. intros _.
  apply keeps_safe_try_except.
  - do 2 (apply keeps_safe_bind; [auto with safe | intros ?]). auto with safe.
  - intros e handler H. unfold except_Exception in H.
    destruct (is_Exception e); inversion H; subst. auto with safe.
Qed.

Lemma keeps_safe_main (env : Env) (fuel : nat) : keeps_safe (main env fuel).
Proof.
  unfold main. apply keeps_safe_bind; [auto with safe|]. intros _.
  apply keeps_safe_bind.
  { apply keeps_safe_try_except.
    - apply keeps_safe_bind; [auto with safe|]. intros _.
      apply keeps_safe_bind.
      + apply keeps_safe_bus_call. intros f. exact I.
      + intros _. apply keeps_safe_bind; auto with safe.
    - intros e handler H. unfold except_Exception in H.
      destruct (is_Exception e); inversion H; subst.
      apply keeps_safe_bind; auto with safe. }
  intros [|]; cbn [negb]; [|auto with safe].
  apply keeps_safe_bind.
  { apply keeps_safe_try_except.
    - apply keeps_safe_bind; [apply keeps_safe_initialize_servos|].
      auto with safe.
    - intros e handler H. unfold except_Exception in H.
      destruct (is_Exception e); inversion H; subst.
      apply keeps_safe_bind; auto with safe. }
  intros [|]; cbn [negb]; [|auto with safe].
  apply keeps_safe_try_finally; [|apply keeps_safe_return_to_neutral].
  apply keeps_safe_bind; auto with safe.
Qed.

Lemma keeps_safe_dunder_main (env : Env) (fuel : nat) :
  keeps_safe (dunder_main env fuel).
Proof.
  unfold dunder_main. apply keeps_safe_try_except; [apply keeps_safe_main|].
  intros e handler H.
  assert (K : keeps_safe (try_except (set_pose env NEUTRAL 800)
                            (except_all (ret tt)))).
  { apply keeps_safe_try_except; [auto with safe|].
    intros e' h' H'. inversion H'; subst. auto with safe. }
  assert (K' : keeps_safe (try_except
                 (set_pose env NEUTRAL 800 ;; print MsgReturnedAfterError)
                 (except_all (ret tt)))).
  { apply keeps_safe_try_except.
    - apply keeps_safe_bind; auto with safe.
    - intros e' h' H'. inversion H'; subst. auto with safe. }
  destruct e; inversion H; subst;
    (apply keeps_safe_bind; [auto with safe | intros _];
     apply keeps_safe_bind; [assumption | intros _; auto with safe]).
Qed.

(** X1.  Whatever the pose holds, whatever the bus does and whenever Ctrl-C
    arrives, every command that [set_pose] puts on the bus carries an angle
    within [0, 240]. *)
Theorem set_pose_never_commands_out_of_range :
  forall (env : Env) (pose : dict) (t_ms : Z) (w : World),
    safe_log (log w) ->
    safe_log (log (snd (set_pose env pose t_ms w))).
Proof. intros env pose t_ms w. apply keeps_safe_set_pose. Qed.

Lemma set_pose_never_commands_out_of_range_witness :
  safe_log (log ready) /\
  safe_log (log (snd (set_pose third_command_times_out
                        [(LEFT_HIP, 315.3); (LEFT_KNEE, -20)] 600 ready))).
Proof.
  assert (H : safe_log (log ready)) by constructor.
  split; [exact H|].
  apply (set_pose_never_commands_out_of_range third_command_times_out
           [(LEFT_HIP, 315.3); (LEFT_KNEE, -20)] 600 ready H).
Defined.

(** X2.  The same holds of whole runs: [walk], [dance] and the script of
    [dance.py] never put on the bus a command whose angle is outside
    [0, 240], for any number of steps, any durations, any bus faults and
    any interrupt. *)
Theorem gaits_never_command_out_of_range :
  forall (env : Env) (fuel : nat) (steps t_ms : Z) (duration_sec : Q) (w : World),
    safe_log (log w) ->
    safe_log (log (snd (walk env steps t_ms w))) /\
    safe_log (log (snd (dance env fuel duration_sec t_ms w))) /\
    safe_log (log (snd (dunder_main env fuel w))).
Proof.
  intros env fuel steps t_ms d w H. repeat split.
  - now apply keeps_safe_walk.
  - now apply keeps_safe_dance.
  - now apply keeps_safe_dunder_main.
Qed.

Lemma gaits_never_command_out_of_range_witness :
  safe_log (log fresh) /\
  safe_log (log (snd (dunder_main (ctrl_c_at 17) 10 fresh))).
Proof.
  assert (H : safe_log (log fresh)) by constructor.
  split; [exact H|].
  apply (gaits_never_command_out_of_range (ctrl_c_at 17) 10 6 500 15 fresh H).
Defined.

(** ** Edge behaviour of the pose player *)

Lemma unregistered_cons (w : World) (sid : Key) (angle : Q) (rest : dict) :
  unregistered w ((sid, angle) :: rest) ->
  existsb (key_eqb sid) (SERVOS w) = false /\ unregistered w rest.
Proof.
  intros H. split.
  - apply H. simpl. now rewrite key_eqb_refl.
  - intros k Hk. apply H. simpl. rewrite Hk. now destruct (key_eqb k sid).
Qed.

Lemma try_move_no_handle (env : Env) (sid : Key) (angle : Q) (t_ms : Z)
    (w : World) :
  existsb (key_eqb sid) (SERVOS w) = false ->
  try_move env (sid, angle) t_ms w =
    (Returned tt, emit (EvPrint (MsgCouldNotMove sid (KeyError sid))) w).
Proof.
  intros H. unfold try_move, try_except, servo_move. now rewrite H.
Qed.

Lemma dispatch_without_handles (env : Env) (t_ms : Z) :
  forall (pose : dict) (w : World),
    unregistered w pose ->
    for_each pose (fun item => try_move env item t_ms) w =
      (Returned tt,
       mkWorld (SERVOS w) (clock w) (tick w)
               (log w ++ missing_handle_warnings pose)).
Proof.
  induction pose as [|[sid angle] rest IH]; intros w Hu.
  - simpl. unfold ret, missing_handle_warnings. simpl.
    rewrite app_nil_r. now destruct w.
  - apply unregistered_cons in Hu. destruct Hu as [Hs Hu].
    cbn [for_each]. run (try_move_no_handle env sid angle t_ms w Hs).
    rewrite (IH (emit (EvPrint (MsgCouldNotMove sid (KeyError sid))) w)) by exact Hu.
    unfold missing_handle_warnings. simpl.
    now rewrite <- app_assoc.
Qed.

Lemma set_pose_no_handles_run (env : Env) (pose : dict) (t_ms : Z) (w : World) :
  unregistered w pose ->
  sigint env (tick w) = false ->
  (-50 <= t_ms <= 9000000000000)%Z ->
  exists w',
    set_pose env pose t_ms w = (Returned tt, w') /\
    log w' = log w ++ missing_handle_warnings pose ++ [EvSleep (settle t_ms)] /\
    commands (log w') = commands (log w) ++ [Sleep (settle t_ms)] /\
    tick w' = S (tick w).
Proof.
  intros Hu Hq Ht.
  unfold set_pose. run (dispatch_without_handles env t_ms pose w Hu).
  rewrite settle_sleep_run by auto.
  eexists. split; [reflexivity|]. cbn [log tick emit spend].
  split; [now rewrite <- app_assoc|]. split; [|reflexivity].
  rewrite !commands_app. f_equal.
  assert (E : commands (missing_handle_warnings pose) = []).
  { unfold missing_handle_warnings. clear Hu.
    induction pose as [|x l IH]; [reflexivity | exact IH]. }
  now rewrite E, app_nil_r.
Qed.

(** X3.  When no servo of the pose has a handle in [SERVOS] (as before
    [initialize_servos] has run), [set_pose] puts nothing on the bus: each
    lookup [SERVOS[sid]] raises [KeyError], which is caught and printed as
    a warning, and, for a duration from -50 ms to 9 000 000 000 000 ms, the
    wait of [t_ms / 1000 + 0.05] s still follows; the call returns
    normally. *)
Theorem set_pose_without_handles_only_warns :
  forall (env : Env) (pose : dict) (t_ms : Z) (w : World),
    unregistered w pose ->
    sigint env (tick w) = false ->
    (-50 <= t_ms <= 9000000000000)%Z ->
    exists w',
      set_pose env pose t_ms w = (Returned tt, w') /\
      log w' = log w ++ missing_handle_warnings pose ++ [EvSleep (settle t_ms)] /\
      commands (log w') = commands (log w) ++ [Sleep (settle t_ms)] /\
      tick w' = S (tick w).
Proof. intros env pose t_ms w. apply set_pose_no_handles_run. Qed.

Lemma set_pose_without_handles_only_warns_witness :
  unregistered fresh NEUTRAL /\ sigint calm (tick fresh) = false /\
  (-50 <= 800 <= 9000000000000)%Z /\
  exists w',
    set_pose calm NEUTRAL 800 fresh = (Returned tt, w') /\
    commands (log w') = [Sleep (settle 800)].
Proof.
  assert (Hu : unregistered fresh NEUTRAL) by (intros sid _; reflexivity).
  split; [exact Hu|]. split; [reflexivity|]. split; [lia|].
  destruct (set_pose_without_handles_only_warns calm NEUTRAL 800 fresh Hu
              eq_refl ltac:(lia)) as (w' & R & _ & C & _).
  exists w'. split; [exact R | exact C].
Defined.

Lemma settle_neg (t_ms : Z) : (t_ms < -50)%Z -> settle t_ms < 0.
Proof.
  intros H. rewrite settle_eq. rewrite Zlt_Qlt in H.
  change (inject_Z (-50)) with (-50 # 1) in H. lra.
Qed.

(** Beyond ten billion seconds either way the wait is out of the range
    of [time.sleep]. *)
Lemma settle_overflows (t_ms : Z) :
  (10000000000000 <= t_ms \/ t_ms <= -10000000000000)%Z ->
  sleep_overflows (settle t_ms) = true.
Proof.
  intros H. unfold sleep_overflows. apply orb_true_iff.
  rewrite !Qltb_lt. unfold SLEEP_MAX, SLEEP_MIN.
  destruct H as [H|H]; rewrite Zle_Qle in H; [left | right];
    rewrite settle_eq.
  - change (inject_Z 10000000000000) with (10000000000000 # 1) in H. lra.
  - change (inject_Z (-10000000000000)) with (-10000000000000 # 1) in H. lra.
Qed.

(** X4.  A duration below -50 ms, down to -9 000 000 000 000 ms, makes
    the argument of [time.sleep] negative: [set_pose] then raises
    [ValueError], which nothing in it catches, but only once its loop has
    gone through every servo of the pose.  The log has gained what the
    loop leaves (for each servo that has a handle the call of [move] with
    that duration and, when the call fails, the warning) and no wait. *)
Theorem set_pose_negative_wait_raises_after_dispatch :
  forall (env : Env) (pose : dict) (t_ms : Z) (w : World),
    uninterrupted env -> (-9000000000000 <= t_ms < -50)%Z ->
    exists w',
      set_pose env pose t_ms w = (Raised ValueError, w') /\
      log w' = log w ++ dispatch_events env (SERVOS w) (tick w) pose t_ms.
Proof.
  intros env pose t_ms w Hu Ht.
  destruct (dispatch_run env t_ms pose w (uninterrupted_quiet env _ Hu))
    as (w1 & R & L & _).
  exists w1. unfold set_pose. run R.
  change (inject_Z t_ms / 1000.0 + 0.05) with (settle t_ms).
  unfold time_sleep. rewrite settle_fits by lia.
  assert (E : Qltb (settle t_ms) 0 = true)
    by (apply Qltb_lt; apply settle_neg; lia).
  rewrite E. split; [reflexivity | exact L].
Qed.

(** With a bus library that rejects every command, the one with a
    negative duration among them: six calls of [move], six warnings, then
    the [ValueError]. *)
Lemma set_pose_negative_wait_raises_after_dispatch_witness :
  uninterrupted every_command_rejected /\ (-9000000000000 <= -100 < -50)%Z /\
  exists w',
    set_pose every_command_rejected NEUTRAL (-100) ready = (Raised ValueError, w') /\
    printed (log w') =
      map (fun item => MsgCouldNotMove (fst item) (BusError FaultRejected)) NEUTRAL.
Proof.
  assert (Hu : uninterrupted every_command_rejected) by (intros n; reflexivity).
  split; [exact Hu|]. split; [lia|].
  destruct (set_pose_negative_wait_raises_after_dispatch every_command_rejected
              NEUTRAL (-100) ready Hu ltac:(lia)) as (w' & R & L).
  exists w'. split; [exact R|]. rewrite L. vm_compute. reflexivity.
Defined.

(** X20.  A duration of 10 000 000 000 000 ms or more, or of
    -10 000 000 000 000 ms or less, puts the argument of [time.sleep] out
    of its range: [set_pose] then raises [OverflowError], which nothing in
    it catches, once its loop has gone through every servo of the pose;
    no wait happens. *)
Theorem set_pose_overlong_wait_raises_OverflowError :
  forall (env : Env) (pose : dict) (t_ms : Z) (w : World),
    uninterrupted env ->
    (10000000000000 <= t_ms \/ t_ms <= -10000000000000)%Z ->
    exists w',
      set_pose env pose t_ms w = (Raised OverflowError, w') /\
      log w' = log w ++ dispatch_events env (SERVOS w) (tick w) pose t_ms.
Proof.
  intros env pose t_ms w Hu Ht.
  destruct (dispatch_run env t_ms pose w (uninterrupted_quiet env _ Hu))
    as (w1 & R & L & _).
  exists w1. unfold set_pose. run R.
  change (inject_Z t_ms / 1000.0 + 0.05) with (settle t_ms).
  unfold time_sleep. rewrite settle_overflows by exact Ht.
  split; [reflexivity | exact L].
Qed.

Lemma set_pose_overlong_wait_raises_OverflowError_witness :
  uninterrupted every_command_rejected /\
  (10000000000000 <= 10000000000000 \/ 10000000000000 <= -10000000000000)%Z /\
  exists w',
    set_pose every_command_rejected NEUTRAL 10000000000000 ready
      = (Raised OverflowError, w') /\
    printed (log w') =
      map (fun item => MsgCouldNotMove (fst item) (BusError FaultRejected)) NEUTRAL.
Proof.
  assert (Hu : uninterrupted every_command_rejected) by (intros n; reflexivity).
  assert (Ht : (10000000000000 <= 10000000000000
                \/ 10000000000000 <= -10000000000000)%Z) by (left; lia).
  split; [exact Hu|]. split; [exact Ht|].
  destruct (set_pose_overlong_wait_raises_OverflowError every_command_rejected
              NEUTRAL 10000000000000 ready Hu Ht) as (w' & R & L).
  exists w'. split; [exact R|]. rewrite L. vm_compute. reflexivity.
Defined.

(** X5.  [KeyboardInterrupt] is not an [Exception]: when Ctrl-C arrives
    during the command of one servo, [set_pose] does not catch it.  The
    servos before that one in the pose have been commanded, that one and
    those after it have not, no wait happens, and the interrupt leaves
    [set_pose]. *)
Theorem set_pose_interrupted_stops_at_once :
  forall (env : Env) (before after : dict) (sid : Key) (angle : Q)
         (t_ms : Z) (w : World),
    registered w (before ++ (sid, angle) :: after) ->
    quiet_between env (tick w) (tick w + length before) ->
    sigint env (tick w + length before) = true ->
    exists w',
      set_pose env (before ++ (sid, angle) :: after) t_ms w
        = (Raised KeyboardInterrupt, w') /\
      commands (log w') =
        commands (log w)
        ++ map (fun item => Move (fst item) (clampAngle (snd item)) t_ms) before.
Proof.
  intros env before after sid angle t_ms w Hr Hq Hi.
  destruct (dispatch_interrupted env t_ms sid angle after before w Hr Hq Hi)
    as (w' & R & C & _).
  exists w'. split; [|exact C].
  unfold set_pose. now rewrite (bind_raised _ _ _ _ _ R).
Qed.

Lemma set_pose_interrupted_stops_at_once_witness :
  registered ready ([(LEFT_HIP, 215.3); (LEFT_KNEE, 123.6)]
                    ++ (LEFT_ANKLE, 123.1)
                    :: [(RIGHT_HIP, 234.0); (RIGHT_KNEE, 107.3);
                        (RIGHT_ANKLE, 177.4)]) /\
  quiet_between (ctrl_c_at 2) (tick ready) (tick ready + 2) /\
  sigint (ctrl_c_at 2) (tick ready + 2) = true /\
  exists w',
    set_pose (ctrl_c_at 2) NEUTRAL 600 ready = (Raised KeyboardInterrupt, w') /\
    commands (log w') = [Move LEFT_HIP 215.3 600; Move LEFT_KNEE 123.6 600].
Proof.
  assert (Hr : registered ready
                 ([(LEFT_HIP, 215.3); (LEFT_KNEE, 123.6)]
                  ++ (LEFT_ANKLE, 123.1)
                  :: [(RIGHT_HIP, 234.0); (RIGHT_KNEE, 107.3);
                      (RIGHT_ANKLE, 177.4)]))
    by (apply all_registered_sound; reflexivity).
  assert (Hq : quiet_between (ctrl_c_at 2) (tick ready) (tick ready + 2)).
  { intros n Hn. simpl in *. apply Nat.eqb_neq. lia. }
  split; [exact Hr|]. split; [exact Hq|]. split; [reflexivity|].
  destruct (set_pose_interrupted_stops_at_once (ctrl_c_at 2)
              [(LEFT_HIP, 215.3); (LEFT_KNEE, 123.6)]
              [(RIGHT_HIP, 234.0); (RIGHT_KNEE, 107.3); (RIGHT_ANKLE, 177.4)]
              LEFT_ANKLE 123.1 600 ready Hr Hq eq_refl) as (w' & R & C).
  exists w'. split; [exact R | exact C].
Defined.

(** ** Which exceptions leave a call *)

Create HintDb raises.

Lemma only_interrupt_ret {A} (a : A) : only_interrupt (ret a).
Proof. intros w e H. discriminate. Qed.

Lemma only_interrupt_bind {A B} (m : M A) (k : A -> M B) :
  only_interrupt m -> (forall a, only_interrupt (k a)) ->
  only_interrupt (bind m k).
Proof.
  intros Hm Hk w e. unfold bind. specialize (Hm w).
  destruct (m w) as [[a|e'|] w1]; simpl in *.
  - apply Hk.
  - intros H. inversion H; subst. now apply Hm.
  - discriminate.
Qed.

(** [except Exception] lets [KeyboardInterrupt] through and nothing else,
    whatever the body raises. *)
Lemma only_interrupt_except_Exception {A} (m : M A) (h : PyExn -> M A) :
  (forall e, only_interrupt (h e)) ->
  only_interrupt (try_except m (except_Exception h)).
Proof.
  intros Hh w e. unfold try_except, except_Exception.
  destruct (m w) as [[a|e'|] w1]; simpl; try discriminate.
  destruct e'; simpl; try apply Hh.
  intros H. now inversion H.
Qed.

Lemma only_interrupt_try_finally {A} (m : M A) (f : M unit) :
  only_interrupt m -> only_interrupt f -> only_interrupt (try_finally m f).
Proof.
  intros Hm Hf w e. unfold try_finally. specialize (Hm w).
  destruct (m w) as [[a|e'|] w1]; simpl in *; try discriminate;
    specialize (Hf w1); destruct (f w1) as [[[]|e''|] w2]; simpl in *;
    try discriminate; intros H; inversion H; subst; auto.
Qed.

Lemma only_interrupt_for_each {A} (l : list A) (body : A -> M unit) :
  (forall x, only_interrupt (body x)) -> only_interrupt (for_each l body).
Proof.
  intros Hb. induction l as [|x l IH]; simpl.
  - apply only_interrupt_ret.
  - apply only_interrupt_bind; [apply Hb | intros _; exact IH].
Qed.

Lemma only_interrupt_print (m : Msg) : only_interrupt (print m).
Proof. intros w e H. discriminate. Qed.

Lemma only_interrupt_time_time : only_interrupt time_time.
Proof. intros w e H. discriminate. Qed.

Lemma only_interrupt_time_sleep (env : Env) (secs : Q) :
  sleep_overflows secs = false -> 0 <= secs ->
  only_interrupt (time_sleep env secs).
Proof.
  intros Ho Hs w e. unfold time_sleep.
  assert (E : Qltb secs 0 = false) by (now apply Qltb_ge).
  rewrite Ho, E. destruct (sigint env (tick w)); simpl; [|discriminate].
  intros H. now inversion H.
Qed.

#[local] Hint Resolve only_interrupt_ret only_interrupt_print
  only_interrupt_time_time : raises.

Lemma only_interrupt_set_pose (env : Env) (pose : dict) (t_ms : Z) :
  (-50 <= t_ms <= 9000000000000)%Z -> only_interrupt (set_pose env pose t_ms).
Proof.
  intros Ht. unfold set_pose. apply only_interrupt_bind.
  - apply only_interrupt_for_each. intros [sid angle]. unfold try_move.
    apply only_interrupt_except_Exception. auto with raises.
  - intros _.
    change (inject_Z t_ms / 1000.0 + 0.05) with (settle t_ms).
    apply only_interrupt_time_sleep;
      [apply settle_fits; lia | apply settle_nonneg; lia].
Qed.

Lemma only_interrupt_pause (env : Env) : only_interrupt (time_sleep env 0.5).
Proof.
  apply only_interrupt_time_sleep; [reflexivity | unfold Qle; simpl; lia].
Qed.

Lemma only_interrupt_neutral (env : Env) :
  only_interrupt (set_pose env NEUTRAL 800).
Proof. apply only_interrupt_set_pose. lia. Qed.

#[local] Hint Resolve only_interrupt_pause only_interrupt_neutral : raises.

Lemma only_interrupt_sequence (env : Env) (sequence : list dict) (t_ms : Z) :
  (-50 <= t_ms <= 9000000000000)%Z ->
  only_interrupt (for_each sequence (fun keyframe => set_pose env keyframe t_ms)).
Proof.
  intros Ht. apply only_interrupt_for_each. intros pose.
  now apply only_interrupt_set_pose.
Qed.

Lemma only_interrupt_walk (env : Env) (steps t_ms : Z) :
  (-50 <= t_ms <= 9000000000000)%Z -> only_interrupt (walk env steps t_ms).
Proof.
  intros Ht. unfold walk.
  do 4 (apply only_interrupt_bind; [auto with raises | intros ?]).
  apply only_interrupt_bind.
  - apply only_interrupt_for_each. intros step_num.
    destruct (step_num mod 2 =? 0)%Z;
      (apply only_interrupt_bind;
       [auto with raises | intros _; now apply only_interrupt_sequence]).
  - intros _. do 2 (apply only_interrupt_bind; [auto with raises | intros ?]).
    auto with raises.
Qed.

Lemma only_interrupt_dance_phrase (env : Env) (sequence_count t_ms : Z) :
  (-50 <= t_ms <= 9000000000000)%Z ->
  only_interrupt (dance_phrase env sequence_count t_ms).
Proof.
  intros Ht. unfold dance_phrase.
  repeat match goal with |- context [if ?b then _ else _] => destruct b end;
    (apply only_interrupt_bind;
     [auto with raises | intros _; now apply only_interrupt_sequence]).
Qed.

Lemma only_interrupt_dance_loop (env : Env) (duration_sec : Q) (t_ms : Z)
    (start_time : Q) :
  (-50 <= t_ms <= 9000000000000)%Z ->
  forall (fuel : nat) (sequence_count : Z),
    only_interrupt
      (dance_loop env fuel duration_sec t_ms start_time sequence_count).
Proof.
  intros Ht. induction fuel as [|fuel IH]; intros count; cbn [dance_loop].
  - intros w e H. discriminate.
  - apply only_interrupt_bind; [auto with raises|]. intros now.
    destruct (Qltb (now - start_time) duration_sec); [|auto with raises].
    apply only_interrupt_bind; [now apply only_interrupt_dance_phrase|].
    intros _.
    apply only_interrupt_bind; [auto with raises|]. intros now'.
    destruct (Qle_bool duration_sec (now' - start_time));
      [auto with raises | apply IH].
Qed.

Lemma only_interrupt_dance (env : Env) (fuel : nat) (duration_sec : Q)
    (t_ms : Z) :
  (-50 <= t_ms <= 9000000000000)%Z ->
  only_interrupt (dance env fuel duration_sec t_ms).
Proof.
  intros Ht. unfold dance.
  do 5 (apply only_interrupt_bind; [auto with raises | intros ?]).
  apply only_interrupt_bind; [now apply only_interrupt_dance_loop | intros ?].
  do 2 (apply only_interrupt_bind; [auto with raises | intros ?]).
  auto with raises.
Qed.

(** X6.  For a duration from -50 ms to 9 000 000 000 000 ms (for which
    [time.sleep] accepts the wait), no [Exception] leaves [set_pose],
    [walk] or [dance], whatever the bus does and whatever the pose holds: a
    call that raises, raises [KeyboardInterrupt]. *)
Theorem gaits_raise_only_KeyboardInterrupt :
  forall (env : Env) (fuel : nat) (pose : dict) (steps t_ms : Z)
         (duration_sec : Q) (w : World) (e : PyExn),
    (-50 <= t_ms <= 9000000000000)%Z ->
    (fst (set_pose env pose t_ms w) = Raised e -> e = KeyboardInterrupt) /\
    (fst (walk env steps t_ms w) = Raised e -> e = KeyboardInterrupt) /\
    (fst (dance env fuel duration_sec t_ms w) = Raised e ->
     e = KeyboardInterrupt).
Proof.
  intros env fuel pose steps t_ms d w e Ht. repeat split.
  - now apply only_interrupt_set_pose.
  - now apply only_interrupt_walk.
  - now apply only_interrupt_dance.
Qed.

Lemma gaits_raise_only_KeyboardInterrupt_witness :
  (-50 <= 400 <= 9000000000000)%Z /\
  fst (dance (ctrl_c_at 17) 10 15 400 ready) = Raised KeyboardInterrupt.
Proof.
  split; [lia|].
  destruct (fst (dance (ctrl_c_at 17) 10 15 400 ready)) as [[]|e|] eqn:E;
    try (vm_compute in E; discriminate).
  f_equal.
  apply (gaits_raise_only_KeyboardInterrupt (ctrl_c_at 17) 10 NEUTRAL 6 400 15
           ready e ltac:(lia)).
  exact E.
Defined.

Lemma only_interrupt_main (env : Env) (fuel : nat) :
  only_interrupt (main env fuel).
Proof.
  unfold main. apply only_interrupt_bind; [auto with raises|]. intros _.
  apply only_interrupt_bind.
  { apply only_interrupt_except_Exception. intros e.
    apply only_interrupt_bind; auto with raises. }
  intros [|]; cbn [negb]; [|auto with raises].
  apply only_interrupt_bind.
  { apply only_interrupt_except_Exception. intros e.
    apply only_interrupt_bind; auto with raises. }
  intros [|]; cbn [negb]; [|auto with raises].
  apply only_interrupt_try_finally.
  - apply only_interrupt_bind; [|auto with raises].
    apply only_interrupt_dance. lia.
  - unfold return_to_neutral.
    apply only_interrupt_bind; [auto with raises|]. intros _.
    apply only_interrupt_except_Exception. auto with raises.
Qed.

(** X7.  [main] of [dance.py] lets no [Exception] out: a failed
    connection and a failed initialisation are caught and end [main] by
    [return], and the gait raises nothing but [KeyboardInterrupt].  So the
    [except Exception] handler of the script is never entered: the script
    behaves as it would without that handler. *)
Theorem main_raises_only_KeyboardInterrupt :
  forall (env : Env) (fuel : nat) (w : World),
    (forall e, fst (main env fuel w) = Raised e -> e = KeyboardInterrupt) /\
    dunder_main env fuel w =
      try_except (main env fuel)
        (fun e =>
           match e with
           | KeyboardInterrupt =>
               Some (print MsgInterruptedByUser ;;
                     try_except (set_pose env NEUTRAL 800) (except_all (ret tt)) ;;
                     print MsgExiting)
           | _ => None
           end) w.
Proof.
  intros env fuel w. split; [apply only_interrupt_main|].
  unfold dunder_main, try_except.
  pose proof (only_interrupt_main env fuel w) as H.
  destruct (main env fuel w) as [[[]|e|] w1]; try reflexivity.
  rewrite (H e eq_refl). reflexivity.
Qed.

(** ** The session, beyond the interrupted gait *)

Lemma try_except_all_never_raises {A} (m : M A) (h : M A) (w : World) :
  (forall w', exists a w'', h w' = (Returned a, w'')) ->
  forall e, fst (try_except m (except_all h) w) <> Raised e.
Proof.
  intros Hh e. unfold try_except, except_all.
  destruct (m w) as [[a|e'|] w1]; simpl; try discriminate.
  destruct (Hh w1) as (a & w2 & E). rewrite E. discriminate.
Qed.

(** X8.  The script of [dance.py] never ends in an exception, whatever
    the bus does and whenever Ctrl-C arrives during a blocking call: both
    handlers wrap their own return to neutral in a bare [except]. *)
Theorem dunder_main_never_raises :
  forall (env : Env) (fuel : nat) (w : World) (e : PyExn),
    fst (dunder_main env fuel w) <> Raised e.
Proof.
  intros env fuel w e. unfold dunder_main. unfold try_except at 1.
  destruct (main env fuel w) as [[[]|e'|] w1]; try discriminate.
  assert (N : forall (m : M unit) (w2 : World),
            fst ((try_except m (except_all (ret tt)) ;; print MsgExiting) w2)
            <> Raised e).
  { intros m w2. unfold bind.
    pose proof (try_except_all_never_raises m (ret tt) w2
                  (fun w' => ex_intro _ tt (ex_intro _ w' eq_refl))) as T.
    destruct (try_except m (except_all (ret tt)) w2) as [[[]|e2|] w3];
      simpl in *; try discriminate.
    now destruct (T e2). }
  destruct e'; unfold bind at 1; rewrite print_run; apply N.
Qed.

Lemma initialize_servos_outcome (env : Env) (w : World) :
  match fst (initialize_servos env w) with
  | Returned _ => initialized (snd (initialize_servos env w))
  | Raised _ => SERVOS (snd (initialize_servos env w)) = SERVOS w
  | OutOfFuel => False
  end.
Proof.
  unfold initialize_servos, LX16A, bus_call, bind, print, initialized.
  repeat match goal with
         | |- context [sigint env ?t] =>
             destruct (sigint env t); cbn [fst snd SERVOS emit spend set_SERVOS tick];
             try reflexivity
         | |- context [bus_fault env ?t] =>
             destruct (bus_fault env t); cbn [fst snd SERVOS emit spend set_SERVOS tick];
             try reflexivity
         end.
Qed.

(** X9.  [initialize_servos] assigns [SERVOS] only when the six
    constructors have all returned: if it returns, the registry holds the
    six ids; if it raises, at whichever servo, the registry is what it was. *)
Theorem initialize_servos_all_or_nothing :
  forall (env : Env) (w : World),
    match fst (initialize_servos env w) with
    | Returned _ => initialized (snd (initialize_servos env w))
    | Raised _ => SERVOS (snd (initialize_servos env w)) = SERVOS w
    | OutOfFuel => False
    end.
Proof. exact initialize_servos_outcome. Qed.

Lemma bind_inv_raised {A B} (m : M A) (k : A -> M B) (w w2 : World) (e : PyExn) :
  bind m k w = (Raised e, w2) ->
  m w = (Raised e, w2) \/
  exists a w1, m w = (Returned a, w1) /\ k a w1 = (Raised e, w2).
Proof.
  unfold bind. destruct (m w) as [[a|e'|] w1].
  - intros H. right. now exists a, w1.
  - intros H. left. now inversion H.
  - discriminate.
Qed.

Lemma no_command_bind {A B} (m : M A) (k : A -> M B) :
  no_command m -> (forall a, no_command (k a)) -> no_command (bind m k).
Proof.
  intros Hm Hk w. unfold bind. specialize (Hm w).
  destruct (m w) as [[a|e|] w1]; simpl in *; try exact Hm.
  now rewrite (Hk a w1).
Qed.

Lemma no_command_print (m : Msg) : no_command (print m).
Proof. intros w. apply commands_emit_print. Qed.

Lemma no_command_bus_call (env : Env) (ev : option BusFault -> Event) :
  (forall f, commands [ev f] = []) -> no_command (bus_call env ev).
Proof.
  intros He w. unfold bus_call.
  destruct (sigint env (tick w)); simpl.
  - rewrite commands_app. simpl. apply app_nil_r.
  - destruct (bus_fault env (tick w)); simpl;
      rewrite commands_app, He; apply app_nil_r.
Qed.

Lemma no_command_initialize_servos (env : Env) :
  no_command (initialize_servos env).
Proof.
  unfold initialize_servos, LX16A.
  do 6 (apply no_command_bind;
        [apply no_command_bus_call; intros f; reflexivity | intros ?]).
  apply no_command_bind; [intros w; reflexivity|].
  intros _. apply no_command_print.
Qed.

Lemma no_command_startup (env : Env) : no_command (startup env).
Proof.
  unfold startup, LX16A_initialize.
  do 2 (apply no_command_bind; [apply no_command_print | intros ?]).
  apply no_command_bind;
    [apply no_command_bus_call; intros f; reflexivity | intros ?].
  apply no_command_bind; [apply no_command_print | intros ?].
  apply no_command_initialize_servos.
Qed.

(** When the startup raises, [main] either swallows the exception (an
    [Exception]: message, then [return]) or lets it go (Ctrl-C); the
    registry is untouched. *)
Lemma main_startup_raised (env : Env) (fuel : nat) (w w1 : World) (e : PyExn) :
  startup env w = (Raised e, w1) ->
  SERVOS w1 = SERVOS w /\
  exists msg,
    (msg = MsgFailedToConnect e \/ msg = MsgFailedToInitialize e) /\
    main env fuel w =
      if is_Exception e
      then (Returned tt, emit (EvPrint msg) w1)
      else (Raised e, w1).
Proof.
  unfold startup. intros H.
  apply bind_inv_raised in H. destruct H as [H|([] & wa & Ha & H)];
    [discriminate|].
  apply bind_inv_raised in H. destruct H as [H|([] & wb & Hb & H)];
    [discriminate|].
  inversion Ha; subst wa. inversion Hb; subst wb. clear Ha Hb.
  set (wb := emit (EvPrint MsgConnecting) (emit (EvPrint MsgBanner) w)) in *.
  unfold main. run (print_run MsgBanner w).
  apply bind_inv_raised in H. destruct H as [H|([] & wc & Hc & H)].
  - (* the connection fails *)
    split.
    { pose proof (keeps_servos_bus_call env EvConnect wb) as K.
      unfold LX16A_initialize in H. rewrite H in K. exact K. }
    exists (MsgFailedToConnect e). split; [now left|].
    assert (A : (print MsgConnecting ;; LX16A_initialize env ;;
                 print MsgConnected ;; ret true)
                  (emit (EvPrint MsgBanner) w) = (Raised e, w1)).
    { run (print_run MsgConnecting (emit (EvPrint MsgBanner) w)).
      now rewrite (bind_raised _ _ _ _ _ H). }
    unfold bind at 1, try_except at 1. rewrite A.
    unfold except_Exception. destruct (is_Exception e); reflexivity.
  - (* the connection succeeds, a constructor fails *)
    apply bind_inv_raised in H. destruct H as [H|([] & wd & Hd & H)];
      [discriminate|].
    inversion Hd; subst wd. clear Hd.
    split.
    { pose proof (initialize_servos_outcome env (emit (EvPrint MsgConnected) wc)) as K.
      rewrite H in K. simpl in K. rewrite K. simpl.
      pose proof (keeps_servos_bus_call env EvConnect wb) as K'.
      unfold LX16A_initialize in Hc. rewrite Hc in K'. exact K'. }
    exists (MsgFailedToInitialize e). split; [now right|].
    assert (A : (print MsgConnecting ;; LX16A_initialize env ;;
                 print MsgConnected ;; ret true)
                  (emit (EvPrint MsgBanner) w)
                = (Returned true, emit (EvPrint MsgConnected) wc)).
    { run (print_run MsgConnecting (emit (EvPrint MsgBanner) w)).
      run Hc. reflexivity. }
    run (try_except_returned _
           (except_Exception (fun e0 => print (MsgFailedToConnect e0) ;; ret false))
           _ _ _ A).
    cbn [negb].
    assert (B : (initialize_servos env ;; ret true)
                  (emit (EvPrint MsgConnected) wc) = (Raised e, w1))
      by (now rewrite (bind_raised _ _ _ _ _ H)).
    unfold bind at 1, try_except at 1. rewrite B.
    unfold except_Exception. destruct (is_Exception e); reflexivity.
Qed.

(** X10.  When the connection or one of the six constructors fails with a
    bus fault, [main] prints the failure and returns normally; it has put
    no servo command on the bus, has not slept, and has left [SERVOS] as it
    was: the gait and the [finally] block are never reached. *)
Theorem main_startup_fault_returns_without_moving :
  forall (env : Env) (fuel : nat) (w : World) (f : BusFault),
    fst (startup env w) = Raised (BusError f) ->
    exists w',
      main env fuel w = (Returned tt, w') /\
      dunder_main env fuel w = (Returned tt, w') /\
      commands (log w') = commands (log w) /\
      SERVOS w' = SERVOS w /\
      (In (MsgFailedToConnect (BusError f)) (printed (log w')) \/
       In (MsgFailedToInitialize (BusError f)) (printed (log w'))).
Proof.
  intros env fuel w f H.
  destruct (startup env w) as [r w1] eqn:E. simpl in H. subst r.
  destruct (main_startup_raised env fuel w w1 _ E) as (Sv & msg & Hm & Mn).
  simpl in Mn. exists (emit (EvPrint msg) w1).
  split; [exact Mn|]. split; [|split; [|split]].
  - unfold dunder_main, try_except. now rewrite Mn.
  - rewrite commands_emit_print.
    pose proof (no_command_startup env w) as K. now rewrite E in K.
  - exact Sv.
  - assert (P : In msg (printed (log (emit (EvPrint msg) w1)))).
    { simpl. clear. induction (log w1) as [|ev l IH]; simpl; [now left|].
      destruct ev; simpl; auto. }
    destruct Hm as [-> | ->]; [now left | now right].
Qed.

Lemma main_startup_fault_returns_without_moving_witness :
  fst (startup fourth_probe_times_out fresh) = Raised (BusError FaultTimeout) /\
  exists w',
    dunder_main fourth_probe_times_out 10 fresh = (Returned tt, w') /\
    commands (log w') = [] /\ SERVOS w' = [].
Proof.
  split; [vm_compute; reflexivity|].
  destruct (main_startup_fault_returns_without_moving fourth_probe_times_out 10
              fresh FaultTimeout ltac:(vm_compute; reflexivity))
    as (w' & _ & R & C & Sv & _).
  exists w'. split; [exact R|]. split; [exact C | exact Sv].
Defined.

(** X11.  When Ctrl-C arrives during the startup, before there are servo
    handles, [main] lets it through and the handler of the script still
    calls [set_pose(NEUTRAL, 800)]: every lookup [SERVOS[sid]] fails, six
    warnings are printed, nothing is put on the bus, the wait of 0.85 s
    happens, and the script ends normally. *)
Theorem ctrl_c_during_startup_warns_and_exits :
  forall (env : Env) (fuel : nat) (w : World),
    SERVOS w = [] ->
    fst (startup env w) = Raised KeyboardInterrupt ->
    sigint env (tick (snd (startup env w))) = false ->
    exists w',
      dunder_main env fuel w = (Returned tt, w') /\
      log w' =
        log (snd (startup env w))
        ++ [EvPrint MsgInterruptedByUser]
        ++ missing_handle_warnings NEUTRAL
        ++ [EvSleep (settle 800); EvPrint MsgExiting] /\
      commands (log w') = commands (log w) ++ [Sleep (settle 800)].
Proof.
  intros env fuel w Hs H Hq.
  destruct (startup env w) as [r w1] eqn:E. simpl in H, Hq |- *. subst r.
  destruct (main_startup_raised env fuel w w1 _ E) as (Sv & msg & _ & Mn).
  simpl in Mn.
  set (wa := emit (EvPrint MsgInterruptedByUser) w1).
  assert (Hu : unregistered wa NEUTRAL).
  { intros sid _. simpl. now rewrite Sv, Hs. }
  destruct (set_pose_no_handles_run env NEUTRAL 800 wa Hu Hq ltac:(lia))
    as (wb & R & L & C & _).
  exists (emit (EvPrint MsgExiting) wb). split; [|split].
  - unfold dunder_main, try_except at 1. rewrite Mn.
    run (print_run MsgInterruptedByUser w1). fold wa.
    run (try_except_returned _ (except_all (ret tt)) _ _ _ R).
    reflexivity.
  - cbn [log emit]. rewrite L. unfold wa. cbn [log emit].
    now rewrite <- !app_assoc.
  - rewrite commands_emit_print, C. unfold wa. rewrite commands_emit_print.
    pose proof (no_command_startup env w) as K. rewrite E in K. simpl in K.
    now rewrite K.
Qed.

Lemma ctrl_c_during_startup_warns_and_exits_witness :
  SERVOS fresh = [] /\
  fst (startup (ctrl_c_at 3) fresh) = Raised KeyboardInterrupt /\
  sigint (ctrl_c_at 3) (tick (snd (startup (ctrl_c_at 3) fresh))) = false /\
  exists w',
    dunder_main (ctrl_c_at 3) 10 fresh = (Returned tt, w') /\
    commands (log w') = [Sleep (settle 800)].
Proof.
  split; [reflexivity|]. split; [vm_compute; reflexivity|].
  split; [vm_compute; reflexivity|].
  destruct (ctrl_c_during_startup_warns_and_exits (ctrl_c_at 3) 10 fresh
              eq_refl ltac:(vm_compute; reflexivity)
              ltac:(vm_compute; reflexivity)) as (w' & R & _ & C).
  exists w'. split; [exact R | exact C].
Defined.

Lemma return_to_neutral_run (env : Env) (w : World) :
  quiet_from env (tick w) -> initialized w ->
  exists w',
    return_to_neutral env w = (Returned tt, w') /\
    commands (log w') =
      commands (log w) ++ pose_commands NEUTRAL 800 ++ [Sleep 0.5].
Proof.
  intros Hq Hi. unfold return_to_neutral.
  run (print_run MsgReturningToNeutralStanding w).
  set (wa := emit _ w).
  destruct (neutral_settle_run env wa Hq Hi) as (wb & wc & Rb & Rc & C & _).
  exists (emit (EvPrint MsgReturnedToNeutralStanding) wc). split.
  - apply try_except_returned. run Rb. run Rc. reflexivity.
  - rewrite commands_emit_print, C. unfold wa.
    now rewrite commands_emit_print.
Qed.

(** X12.  In a session that nothing disturbs, the [finally] block of
    [main] runs after [dance] has returned: the robot, which [dance] has
    already brought back to [NEUTRAL], is sent to [NEUTRAL] at 800 ms once
    more, followed by the pause of 0.5 s, and the script ends normally. *)
Theorem undisturbed_session_ends_in_neutral :
  forall (env : Env) (fuel : nat) (w w1 : World),
    fst (startup env w) = Returned tt ->
    dance env fuel 15 400 (started env w) = (Returned tt, w1) ->
    quiet_from env (tick w1) ->
    exists w',
      dunder_main env fuel w = (Returned tt, w') /\
      commands (log w') =
        commands (log w1) ++ pose_commands NEUTRAL 800 ++ [Sleep 0.5].
Proof.
  intros env fuel w w1 Hs Hd Hq.
  destruct (main_after_startup env fuel w Hs) as (Hi & Hm).
  assert (I1 : initialized w1).
  { pose proof (keeps_servos_dance env fuel 15 400 (started env w)) as K.
    rewrite Hd in K. simpl in K.
    now apply (initialized_same_servos (started env w) w1). }
  set (wa := emit (EvPrint MsgBannerDancingComplete) w1).
  destruct (return_to_neutral_run env wa Hq I1) as (w' & R & C).
  exists w'. split.
  - unfold dunder_main, try_except. rewrite Hm. unfold try_finally.
    run Hd. rewrite print_run. fold wa. now rewrite R.
  - rewrite C. unfold wa. now rewrite commands_emit_print.
Qed.

Lemma undisturbed_session_ends_in_neutral_witness :
  fst (startup calm fresh) = Returned tt /\
  exists w1 w',
    dance calm 20 15 400 (started calm fresh) = (Returned tt, w1) /\
    quiet_from calm (tick w1) /\
    dunder_main calm 20 fresh = (Returned tt, w') /\
    commands (log w') =
      commands (log w1) ++ pose_commands NEUTRAL 800 ++ [Sleep 0.5].
Proof.
  split; [vm_compute; reflexivity|].
  destruct (dance calm 20 15 400 (started calm fresh)) as [[[]|e|] w1] eqn:E;
    try (exfalso; vm_compute in E; discriminate).
  assert (Hq : quiet_from calm (tick w1)) by (intros n _; reflexivity).
  destruct (undisturbed_session_ends_in_neutral calm 20 fresh w1
              ltac:(vm_compute; reflexivity) E Hq) as (w' & R & C).
  exists w1, w'. repeat split; auto.
Defined.

(** ** How long the gaits take *)

Lemma dispatch_punctual (env : Env) (t_ms : Z) :
  punctual env ->
  forall (pose : dict) (w : World),
    quiet_from env (tick w) ->
    exists w',
      for_each pose (fun item => try_move env item t_ms) w = (Returned tt, w') /\
      clock w' == clock w /\
      SERVOS w' = SERVOS w /\
      (tick w <= tick w')%nat.
Proof.
  intros Hp. induction pose as [|[sid angle] rest IH]; intros w Hq.
  - exists w. split; [reflexivity|]. split; [apply Qeq_refl|].
    split; [reflexivity | lia].
  - cbn [for_each]. unfold bind at 1.
    rewrite try_move_run by (apply Hq; lia).
    destruct (existsb (key_eqb sid) (SERVOS w)).
    + cbv zeta.
      set (w1 := emit (EvMove sid (clampAngle angle) t_ms (bus_fault env (tick w)))
                      (spend (lag env (tick w)) w)).
      assert (C1 : clock w1 == clock w).
      { unfold w1. simpl. pose proof (Hp (tick w)). lra. }
      assert (Q1 : forall w2, tick w2 = S (tick w) -> quiet_from env (tick w2)).
      { intros w2 T2. eapply quiet_from_le; [exact Hq | lia]. }
      destruct (bus_fault env (tick w)) as [f|].
      * destruct (IH (emit (EvPrint (MsgCouldNotMove sid (BusError f))) w1))
          as (w' & R & C & Sv & T); [now apply Q1|].
        exists w'. split; [exact R|]. simpl in *.
        split; [lra|]. split; [exact Sv | lia].
      * destruct (IH w1) as (w' & R & C & Sv & T); [now apply Q1|].
        exists w'. split; [exact R|]. simpl in *.
        split; [lra|]. split; [exact Sv | lia].
    + destruct (IH (emit (EvPrint (MsgCouldNotMove sid (KeyError sid))) w))
        as (w' & R & C & Sv & T); [exact Hq|].
      exists w'. split; [exact R|]. simpl in *.
      split; [exact C|]. split; [exact Sv | exact T].
Qed.

Lemma set_pose_punctual (env : Env) (pose : dict) (t_ms : Z) (w : World) :
  punctual env -> quiet_from env (tick w) ->
  (-50 <= t_ms <= 9000000000000)%Z ->
  exists w',
    set_pose env pose t_ms w = (Returned tt, w') /\
    clock w' == clock w + settle t_ms /\
    SERVOS w' = SERVOS w /\
    (tick w <= tick w')%nat.
Proof.
  intros Hp Hq Ht.
  destruct (dispatch_punctual env t_ms Hp pose w Hq) as (w1 & R & C & Sv & T).
  unfold set_pose. run R.
  rewrite settle_sleep_run by (try apply Hq; auto).
  eexists. split; [reflexivity|]. cbn [clock SERVOS tick emit spend].
  split; [|split; [exact Sv | lia]].
  pose proof (Hp (tick w1)). lra.
Qed.

(** X13.  With blocking calls that take their nominal time, no Ctrl-C
    and a duration from -50 ms to 9 000 000 000 000 ms, [set_pose] lasts
    exactly [t_ms / 1000 + 0.05] seconds on the clock, whatever the pose
    holds and however many of its servos fail or have no handle. *)
Theorem set_pose_takes_the_same_time_whatever_fails :
  forall (env : Env) (pose : dict) (t_ms : Z) (w : World),
    punctual env -> uninterrupted env -> (-50 <= t_ms <= 9000000000000)%Z ->
    exists w',
      set_pose env pose t_ms w = (Returned tt, w') /\
      clock w' - clock w == inject_Z t_ms / 1000 + 0.05.
Proof.
  intros env pose t_ms w Hp Hu Ht.
  destruct (set_pose_punctual env pose t_ms w Hp (uninterrupted_quiet env _ Hu) Ht)
    as (w' & R & C & _).
  exists w'. split; [exact R|].
  rewrite C, settle_eq. unfold Qdiv. change (/ 1000) with (1 # 1000). lra.
Qed.

Lemma set_pose_takes_the_same_time_whatever_fails_witness :
  punctual third_command_times_out /\ uninterrupted third_command_times_out /\
  (-50 <= 600 <= 9000000000000)%Z /\
  exists w',
    set_pose third_command_times_out NEUTRAL 600 ready = (Returned tt, w') /\
    clock w' - clock ready == inject_Z 600 / 1000 + 0.05.
Proof.
  assert (Hp : punctual third_command_times_out) by (intros n; reflexivity).
  assert (Hu : uninterrupted third_command_times_out) by (intros n; reflexivity).
  split; [exact Hp|]. split; [exact Hu|]. split; [lia|].
  apply (set_pose_takes_the_same_time_whatever_fails third_command_times_out
           NEUTRAL 600 ready Hp Hu). lia.
Defined.

Lemma sequence_punctual (env : Env) (t_ms : Z) :
  punctual env -> (-50 <= t_ms <= 9000000000000)%Z ->
  forall (sequence : list dict) (w : World),
    quiet_from env (tick w) ->
    exists w',
      for_each sequence (fun keyframe => set_pose env keyframe t_ms) w
        = (Returned tt, w') /\
      clock w' ==
        clock w + inject_Z (Z.of_nat (length sequence)) * settle t_ms /\
      SERVOS w' = SERVOS w /\
      (tick w <= tick w')%nat.
Proof.
  intros Hp Ht. induction sequence as [|pose rest IH]; intros w Hq.
  - exists w. split; [reflexivity|]. split; [|split; [reflexivity | lia]].
    change (inject_Z (Z.of_nat (length (@nil dict)))) with 0. lra.
  - destruct (set_pose_punctual env pose t_ms w Hp Hq Ht) as (w1 & R1 & C1 & S1 & T1).
    destruct (IH w1) as (w' & R & C & Sv & T).
    { eapply quiet_from_le; [exact Hq | exact T1]. }
    exists w'. cbn [for_each]. run R1. split; [exact R|].
    split; [|split; [congruence | lia]].
    rewrite C, C1. cbn [length]. rewrite Nat2Z.inj_succ. unfold Z.succ.
    rewrite inject_Z_plus. change (inject_Z 1) with 1. lra.
Qed.

Lemma walk_steps_punctual (env : Env) (steps t_ms : Z) :
  punctual env -> (-50 <= t_ms <= 9000000000000)%Z ->
  forall (l : list Z) (w : World),
    quiet_from env (tick w) ->
    exists w',
      for_each l (fun step_num =>
        let '(leg_name, sequence) :=
          if (step_num mod 2 =? 0)%Z
          then (Left, LEFT_LEG_STEP_SEQUENCE)
          else (Right, RIGHT_LEG_STEP_SEQUENCE) in
        print (MsgStep (step_num + 1) steps leg_name) ;;
        for_each sequence (fun keyframe => set_pose env keyframe t_ms)) w
        = (Returned tt, w') /\
      clock w' == clock w + inject_Z (Z.of_nat (length l)) * (4 * settle t_ms) /\
      (tick w <= tick w')%nat.
Proof.
  intros Hp Ht. induction l as [|step_num rest IH]; intros w Hq.
  - exists w. split; [reflexivity|]. split; [|lia].
    change (inject_Z (Z.of_nat (length (@nil Z)))) with 0. lra.
  - cbn [for_each]. unfold bind at 1.
    destruct (step_num mod 2 =? 0)%Z.
    + run (print_run (MsgStep (step_num + 1) steps Left) w).
      destruct (sequence_punctual env t_ms Hp Ht LEFT_LEG_STEP_SEQUENCE
                  (emit (EvPrint (MsgStep (step_num + 1) steps Left)) w) Hq)
        as (w1 & R1 & C1 & _ & T1).
      rewrite R1.
      destruct (IH w1) as (w' & R & C & T).
      { eapply quiet_from_le; [exact Hq | exact T1]. }
      exists w'. split; [exact R|]. split; [|simpl in T1; lia].
      rewrite C, C1. cbn [length clock emit]. rewrite Nat2Z.inj_succ.
      unfold Z.succ. rewrite inject_Z_plus.
      change (inject_Z (Z.of_nat (length LEFT_LEG_STEP_SEQUENCE))) with 4.
      change (inject_Z 1) with 1. lra.
    + run (print_run (MsgStep (step_num + 1) steps Right) w).
      destruct (sequence_punctual env t_ms Hp Ht RIGHT_LEG_STEP_SEQUENCE
                  (emit (EvPrint (MsgStep (step_num + 1) steps Right)) w) Hq)
        as (w1 & R1 & C1 & _ & T1).
      rewrite R1.
      destruct (IH w1) as (w' & R & C & T).
      { eapply quiet_from_le; [exact Hq | exact T1]. }
      exists w'. split; [exact R|]. split; [|simpl in T1; lia].
      rewrite C, C1. cbn [length clock emit]. rewrite Nat2Z.inj_succ.
      unfold Z.succ. rewrite inject_Z_plus.
      change (inject_Z (Z.of_nat (length RIGHT_LEG_STEP_SEQUENCE))) with 4.
      change (inject_Z 1) with 1. lra.
Qed.

(** X14.  With blocking calls that take their nominal time, no Ctrl-C
    and a duration per keyframe from -50 ms to 9 000 000 000 000 ms, [walk]
    lasts exactly [2 * 0.85 + 0.5 + n * 4 * (t_ms / 1000 + 0.05)] seconds,
    [n] being [steps] or 0 when [steps] is negative: servo failures do not
    change the duration of a walk. *)
Theorem walk_duration :
  forall (env : Env) (steps t_ms : Z) (w : World),
    punctual env -> uninterrupted env -> (-50 <= t_ms <= 9000000000000)%Z ->
    exists w',
      walk env steps t_ms w = (Returned tt, w') /\
      clock w' - clock w ==
        2 * settle 800 + 0.5 + inject_Z (Z.max 0 steps) * (4 * settle t_ms) /\
      settle 800 == 0.85.
Proof.
  intros env steps t_ms w Hp Hu Ht.
  assert (Hq : forall t, quiet_from env t)
    by (intros t; now apply uninterrupted_quiet).
  unfold walk. run (print_run MsgMovingToNeutral w).
  destruct (set_pose_punctual env NEUTRAL 800 (emit (EvPrint MsgMovingToNeutral) w)
              Hp (Hq _) ltac:(lia)) as (w1 & R1 & C1 & _).
  run R1.
  assert (R2 : time_sleep env 0.5 w1 =
    (Returned tt, emit (EvSleep 0.5) (spend (0.5 + lag env (tick w1)) w1))).
  { apply pause_run. apply Hu. }
  run R2. set (w2 := emit (EvSleep 0.5) _).
  run (print_run (MsgWalking steps) w2).
  destruct (walk_steps_punctual env steps t_ms Hp Ht (range steps)
              (emit (EvPrint (MsgWalking steps)) w2) (Hq _)) as (w3 & R3 & C3 & _).
  run R3. run (print_run MsgReturning w3).
  destruct (set_pose_punctual env NEUTRAL 800 (emit (EvPrint MsgReturning) w3)
              Hp (Hq _) ltac:(lia)) as (w4 & R4 & C4 & _).
  run R4. rewrite print_run.
  eexists. split; [reflexivity|]. split; [|rewrite settle_eq; reflexivity].
  cbn [clock emit] in *. rewrite C4, C3. unfold w2. cbn [clock emit spend].
  rewrite C1. rewrite length_range.
  replace (Z.of_nat (Z.to_nat steps)) with (Z.max 0 steps) by lia.
  pose proof (Hp (tick w1)). lra.
Qed.

Lemma walk_duration_witness :
  punctual calm /\ uninterrupted calm /\ (-50 <= 500 <= 9000000000000)%Z /\
  exists w',
    walk calm 6 500 ready = (Returned tt, w') /\
    clock w' - clock ready == 15.4.
Proof.
  assert (Hp : punctual calm) by (intros n; reflexivity).
  assert (Hu : uninterrupted calm) by (intros n; reflexivity).
  split; [exact Hp|]. split; [exact Hu|]. split; [lia|].
  destruct (walk_duration calm 6 500 ready Hp Hu ltac:(lia)) as (w' & R & C & _).
  exists w'. split; [exact R|]. rewrite C. reflexivity.
Defined.

(** X16.  [dance] with a duration of zero or less plays no phrase,
    whatever [t_ms] is: it goes to [NEUTRAL] with the pause, finds the
    time already up, and goes to [NEUTRAL] again. *)
Theorem dance_without_time_plays_no_phrase :
  forall (env : Env) (fuel : nat) (duration_sec : Q) (t_ms : Z) (w : World),
    duration_sec <= 0 -> uninterrupted env -> initialized w ->
    exists w',
      dance env (S fuel) duration_sec t_ms w = (Returned tt, w') /\
      commands (log w') =
        commands (log w)
        ++ (pose_commands NEUTRAL 800 ++ [Sleep 0.5])
        ++ pose_commands NEUTRAL 800.
Proof.
  intros env fuel d t_ms w Hd Hu Hi.
  assert (Hq : forall t, quiet_from env t)
    by (intros t; now apply uninterrupted_quiet).
  unfold dance. run (print_run MsgMovingToNeutral w).
  set (w0 := emit _ w).
  destruct (neutral_settle_run env w0 (Hq _) Hi)
    as (wa & w1 & Ra & R1 & C1 & S1 & _).
  run Ra. run R1. run (print_run (MsgDancing d) w1).
  set (w2 := emit _ w1).
  rewrite bind_time_time.
  assert (RL : dance_loop env (S fuel) d t_ms (clock w2) 0 w2 = (Returned 0%Z, w2)).
  { cbn [dance_loop]. rewrite bind_time_time.
    assert (E : Qltb (clock w2 - clock w2) d = false) by (apply Qltb_ge; lra).
    now rewrite E. }
  run RL. run (print_run MsgReturning w2).
  set (w4 := emit _ w2).
  assert (I4 : initialized w4)
    by (apply (initialized_same_servos w w4); [exact S1 | exact Hi]).
  destruct (set_pose_run env NEUTRAL 800 w4 (Hq _) ltac:(lia))
    as (w5 & R5 & _ & _ & _ & C5 & _).
  run R5. rewrite print_run.
  eexists. split; [reflexivity|].
  rewrite commands_emit_print.
  rewrite C5 by (now apply choreography_registered).
  unfold w4. rewrite commands_emit_print.
  unfold w2. rewrite commands_emit_print, C1.
  unfold w0. rewrite commands_emit_print.
  now rewrite <- !app_assoc.
Qed.

Lemma dance_without_time_plays_no_phrase_witness :
  0 <= 0 /\ uninterrupted calm /\ initialized ready /\
  exists w',
    dance calm 1 0 400 ready = (Returned tt, w') /\
    commands (log w') =
      (pose_commands NEUTRAL 800 ++ [Sleep 0.5]) ++ pose_commands NEUTRAL 800.
Proof.
  assert (H0 : 0 <= 0) by apply Qle_refl.
  assert (Hu : uninterrupted calm) by (intros n; reflexivity).
  split; [exact H0|]. split; [exact Hu|]. split; [reflexivity|].
  apply (dance_without_time_plays_no_phrase calm 0 0 400 ready H0 Hu eq_refl).
Defined.

(** ** The order of the deltas does not matter *)

Lemma dict_contains_In (d : dict) (k : Key) :
  dict_contains d k = true <-> In k (dict_keys d).
Proof.
  rewrite dict_contains_keys. unfold dict_keys. rewrite existsb_exists. split.
  - intros (k' & Hin & E). apply key_eqb_eq in E. now subst.
  - intros Hin. exists k. split; [exact Hin | apply key_eqb_refl].
Qed.

Lemma unique_keys_NoDup (d : dict) :
  unique_keys d = true <-> NoDup (dict_keys d).
Proof.
  induction d as [|[k v] d IH]; simpl.
  - split; [constructor | reflexivity].
  - rewrite andb_true_iff, negb_true_iff, IH. split.
    + intros [Hn Hd]. constructor; [|exact Hd].
      intros Hin. apply dict_contains_In in Hin. congruence.
    + intros H. inversion H as [|x l Hn Hd]; subst. split; [|exact Hd].
      destruct (dict_contains d k) eqn:E; [|reflexivity].
      apply dict_contains_In in E. contradiction.
Qed.

Lemma In_dict_get (d : dict) (k : Key) (v : Q) :
  NoDup (dict_keys d) -> In (k, v) d -> dict_get d k = Some v.
Proof.
  induction d as [|[k' v'] d IH]; simpl; [contradiction|].
  intros Hn [E|Hin].
  - inversion E; subst. now rewrite key_eqb_refl.
  - inversion Hn as [|x l Hk Hd]; subst.
    destruct (key_eqb k k') eqn:E.
    + apply key_eqb_eq in E. subst k'. exfalso. apply Hk.
      apply (in_map fst) in Hin. exact Hin.
    + now apply IH.
Qed.

Lemma dict_get_permutation (d d' : dict) (k : Key) :
  NoDup (dict_keys d) -> Permutation d d' -> dict_get d k = dict_get d' k.
Proof.
  intros Hn Hp.
  assert (Hn' : NoDup (dict_keys d')).
  { apply (Permutation_NoDup (l := dict_keys d)); [|exact Hn].
    unfold dict_keys. now apply Permutation_map. }
  destruct (dict_get d k) as [v|] eqn:E.
  - symmetry. apply In_dict_get; [exact Hn'|].
    apply (Permutation_in _ Hp). now apply dict_get_In.
  - destruct (dict_get d' k) as [v'|] eqn:E'; [|reflexivity].
    apply dict_get_In in E'. apply (Permutation_in _ (Permutation_sym Hp)) in E'.
    rewrite (In_dict_get d k v' Hn E') in E. discriminate.
Qed.

(** Two dicts with the same keys in the same order and the same value at
    every key are the same dict. *)
Lemma dict_ext :
  forall (p q : dict),
    dict_keys p = dict_keys q -> NoDup (dict_keys p) ->
    (forall k, dict_get p k = dict_get q k) -> p = q.
Proof.
  induction p as [|[k v] p IH]; intros [|[k' v'] q] Hk Hn Hg;
    try discriminate; [reflexivity|].
  simpl in Hk. inversion Hk as [[Ek Et]]. subst k'.
  inversion Hn as [|x l Hnot Hd]; subst.
  pose proof (Hg k) as G. simpl in G. rewrite key_eqb_refl in G.
  inversion G; subst v'. f_equal.
  apply IH; [exact Et | exact Hd|].
  intros k0. destruct (key_eqb k0 k) eqn:E.
  - apply key_eqb_eq in E. subst k0.
    assert (N : forall r, dict_keys r = dict_keys p -> dict_get r k = None).
    { intros r Hr. destruct (dict_get r k) as [x|] eqn:Gr; [|reflexivity].
      exfalso. apply Hnot. rewrite <- Hr. apply dict_contains_In.
      now rewrite dict_contains_get, Gr. }
    rewrite (N p eq_refl), (N q (eq_sym Et)). reflexivity.
  - specialize (Hg k0). simpl in Hg. now rewrite E in Hg.
Qed.

(** X17.  For a base and a delta dict without repeated keys, the pose
    that [pose_from_neutral] builds does not depend on the order in which
    the delta dict lists its entries: every entry is added to [NEUTRAL],
    never to the pose under construction. *)
Theorem pose_from_neutral_ignores_delta_order :
  forall (b d d' : dict) (kw : kwargs),
    unique_keys b = true -> unique_keys d = true -> Permutation d d' ->
    pose_from_neutral b (Some d) kw = pose_from_neutral b (Some d') kw.
Proof.
  intros b d d' kw Hb Hd Hp.
  assert (Nd : NoDup (dict_keys d)) by (now apply unique_keys_NoDup).
  assert (Hd' : unique_keys d' = true).
  { apply unique_keys_NoDup.
    apply (Permutation_NoDup (l := dict_keys d)); [|exact Nd].
    unfold dict_keys. now apply Permutation_map. }
  unfold pose_from_neutral.
  destruct (apply_deltas_spec b d b eq_refl) as (p & R & K & U & V).
  destruct (apply_deltas_spec b d' b eq_refl) as (p' & R' & K' & U' & V').
  rewrite R, R'. f_equal.
  apply dict_ext.
  - congruence.
  - rewrite K. now apply unique_keys_NoDup.
  - intros k. pose proof (dict_get_permutation d d' k Nd Hp) as G.
    destruct (dict_get d k) as [dl|] eqn:E.
    + destruct (dict_get b k) as [bv|] eqn:Eb.
      * rewrite (V Hd k dl bv E Eb). symmetry.
        apply (V' Hd' k dl bv); [now rewrite <- G | exact Eb].
      * assert (N : forall r, dict_keys r = dict_keys b -> dict_get r k = None).
        { intros r Hr. destruct (dict_get r k) as [x|] eqn:Gr; [|reflexivity].
          pose proof (dict_contains_same_keys r b k Hr) as C.
          rewrite !dict_contains_get, Gr, Eb in C. discriminate. }
        now rewrite (N p K), (N p' K').
    + rewrite (U k E), (U' k); [reflexivity | now rewrite <- G].
Qed.

Lemma pose_from_neutral_ignores_delta_order_witness :
  unique_keys NEUTRAL = true /\
  unique_keys [(LEFT_KNEE, 50); (LEFT_ANKLE, -40)] = true /\
  Permutation [(LEFT_KNEE, 50); (LEFT_ANKLE, -40)]
              [(LEFT_ANKLE, -40); (LEFT_KNEE, 50)] /\
  pose_from_neutral NEUTRAL (Some [(LEFT_KNEE, 50); (LEFT_ANKLE, -40)]) [] =
  pose_from_neutral NEUTRAL (Some [(LEFT_ANKLE, -40); (LEFT_KNEE, 50)]) [].
Proof.
  split; [reflexivity|]. split; [reflexivity|].
  assert (P : Permutation [(LEFT_KNEE, 50); (LEFT_ANKLE, -40)]
                          [(LEFT_ANKLE, -40); (LEFT_KNEE, 50)])
    by apply perm_swap.
  split; [exact P|].
  apply (pose_from_neutral_ignores_delta_order NEUTRAL
           [(LEFT_KNEE, 50); (LEFT_ANKLE, -40)]
           [(LEFT_ANKLE, -40); (LEFT_KNEE, 50)] [] eq_refl eq_refl P).
Defined.

(** ** Keyframes are separate objects *)

(** X18.  Two calls of [pose_from_neutral] in a row, as in the list
    displays that build a keyframe sequence, return two different new
    objects, neither of them [NEUTRAL]; the second call leaves the pose
    built by the first, and [NEUTRAL], as they were. *)
Theorem successive_poses_do_not_alias :
  forall (st : Objects.store) (N : Objects.ref)
         (dd1 dd2 : option Objects.ref) (kw1 kw2 : kwargs),
    (N < length st)%nat ->
    exists st1 st2,
      Objects.pose_from_neutral N dd1 kw1 st = (Returned (length st), st1) /\
      Objects.pose_from_neutral N dd2 kw2 st1 = (Returned (S (length st)), st2) /\
      N <> length st /\ N <> S (length st) /\
      Objects.deref st2 (length st) = Objects.deref st1 (length st) /\
      Objects.deref st2 N = Objects.deref st N.
Proof.
  intros st N dd1 dd2 kw1 kw2 HN.
  destruct (objects_pose_from_neutral st N dd1 kw1 HN)
    as (p1 & st1 & _ & O1 & L1 & _ & F1).
  assert (HN1 : (N < length st1)%nat) by lia.
  destruct (objects_pose_from_neutral st1 N dd2 kw2 HN1)
    as (p2 & st2 & _ & O2 & _ & _ & F2).
  exists st1, st2. rewrite L1 in O2.
  split; [exact O1|]. split; [exact O2|].
  split; [lia|]. split; [lia|]. split.
  - apply F2. lia.
  - rewrite (F2 N HN1). now apply F1.
Qed.

Lemma successive_poses_do_not_alias_witness :
  (0 < length [NEUTRAL])%nat /\
  exists st1 st2,
    Objects.pose_from_neutral 0%nat None [] [NEUTRAL] = (Returned 1%nat, st1) /\
    Objects.pose_from_neutral 0%nat None [] st1 = (Returned 2%nat, st2) /\
    Objects.deref st2 1%nat = Objects.deref st1 1%nat /\
    Objects.deref st2 0%nat = NEUTRAL.
Proof.
  split; [simpl; lia|].
  destruct (successive_poses_do_not_alias [NEUTRAL] 0%nat None None [] [])
    as (st1 & st2 & O1 & O2 & _ & _ & D1 & D0); [simpl; lia|].
  exists st1, st2. repeat split; assumption.
Defined.

(** ** A second Ctrl-C *)

(** X19.  The handler of the script wraps its return to neutral in a bare
    [except:].  When [main] has been interrupted and a second Ctrl-C
    arrives while the handler commands the servos, that interrupt is
    swallowed: the servos before the one in progress have been sent to
    neutral, the others have not, no wait happens, and the script prints
    "Exiting..." and ends normally. *)
Theorem second_ctrl_c_leaves_neutral_unfinished :
  forall (env : Env) (fuel : nat) (w w1 : World)
         (before after : dict) (sid : Key) (angle : Q),
    NEUTRAL = before ++ (sid, angle) :: after ->
    main env fuel w = (Raised KeyboardInterrupt, w1) ->
    initialized w1 ->
    quiet_between env (tick w1) (tick w1 + length before) ->
    sigint env (tick w1 + length before) = true ->
    exists w',
      dunder_main env fuel w = (Returned tt, w') /\
      commands (log w') =
        commands (log w1)
        ++ map (fun item => Move (fst item) (clampAngle (snd item)) 800) before.
Proof.
  intros env fuel w w1 before after sid angle HN Hm Hi Hq Hs.
  set (wa := emit (EvPrint MsgInterruptedByUser) w1).
  assert (Hr : registered wa (before ++ (sid, angle) :: after)).
  { rewrite <- HN. now apply choreography_registered. }
  destruct (dispatch_interrupted env 800 sid angle after before wa Hr Hq Hs)
    as (wb & R & C & _).
  assert (Rs : set_pose env NEUTRAL 800 wa = (Raised KeyboardInterrupt, wb)).
  { unfold set_pose. rewrite HN. now rewrite (bind_raised _ _ _ _ _ R). }
  exists (emit (EvPrint MsgExiting) wb). split.
  - unfold dunder_main, try_except at 1. rewrite Hm.
    run (print_run MsgInterruptedByUser w1). fold wa.
    unfold bind, try_except, except_all. rewrite Rs. reflexivity.
  - rewrite commands_emit_print, C. unfold wa.
    now rewrite commands_emit_print.
Qed.

(** Ctrl-C during the first Hip Sway keyframe (call 17), and again during
    the third servo command of the handler's return to neutral (call 28,
    the [finally] block having taken calls 18 to 25). *)
Lemma second_ctrl_c_leaves_neutral_unfinished_witness :
  NEUTRAL = [(LEFT_HIP, 215.3); (LEFT_KNEE, 123.6)]
            ++ (LEFT_ANKLE, 123.1)
            :: [(RIGHT_HIP, 234.0); (RIGHT_KNEE, 107.3); (RIGHT_ANKLE, 177.4)] /\
  exists w1,
    main (ctrl_c_twice 17 28) 10 fresh = (Raised KeyboardInterrupt, w1) /\
    initialized w1 /\
    quiet_between (ctrl_c_twice 17 28) (tick w1) (tick w1 + 2) /\
    sigint (ctrl_c_twice 17 28) (tick w1 + 2) = true /\
    exists w',
      dunder_main (ctrl_c_twice 17 28) 10 fresh = (Returned tt, w') /\
      commands (log w') =
        commands (log w1)
        ++ [Move LEFT_HIP 215.3 800; Move LEFT_KNEE 123.6 800].
Proof.
  split; [reflexivity|].
  eexists. split; [vm_compute; reflexivity|].
  split; [reflexivity|].
  assert (Hq : quiet_between (ctrl_c_twice 17 28) 26 28).
  { intros n Hn. simpl. apply orb_false_iff. split; apply Nat.eqb_neq; lia. }
  split; [exact Hq|]. split; [reflexivity|].
  destruct (second_ctrl_c_leaves_neutral_unfinished (ctrl_c_twice 17 28) 10 fresh _
              [(LEFT_HIP, 215.3); (LEFT_KNEE, 123.6)]
              [(RIGHT_HIP, 234.0); (RIGHT_KNEE, 107.3); (RIGHT_ANKLE, 177.4)]
              LEFT_ANKLE 123.1 eq_refl
              ltac:(vm_compute; reflexivity) eq_refl Hq eq_refl)
    as (w' & R & C).
  exists w'. split; [exact R | exact C].
Defined.
